(** * rds-try: the [command] package

    A shallow embedding of [command/command.go]: the tag registry that
    recognises the resources the tool created, the discovery and bulk
    delete entry points, the status waiter, the query executor and the
    CSV exporter.

    Conventions of the embedding.
    - A Go string is a byte sequence: [string].  [time.Time] and
      [time.Duration] are integers (nanoseconds): [Z].
    - The SDK's pointer-typed fields ([aws.StringValue] and the like) that
      the provider always populates are modelled by their pointees.  A
      pointer the code itself sets to nil (the result of a failed describe
      call) is modelled explicitly, and dereferencing it is a panic.
    - A Go result pair [(value, err)] whose value is nil when [err] is not
      is a sum [error + A]; a pair whose value is meaningful next to the error
      ([checkListTagsForResourceMessage], [ExecuteSQL]) stays a pair.
    - Everything outside the package (the RDS service, database/sql, the
      file system, the clock, package utils) is an interface over an
      abstract state [St] of the outside world; the code threads that state
      through every call.  The model also records the external calls and
      the log lines the code issues, in order. *)

From Stdlib Require Import String Ascii List ZArith Lia Bool Arith DecimalString.
Import ListNotations.
Open Scope string_scope.

Set Implicit Arguments.

(** ** Strings *)

(** [strings.HasPrefix(s, prefix)] *)
Definition HasPrefix (s prefix : string) : bool := String.prefix prefix s.

(** [strings.Contains(s, substr)] *)
Fixpoint Contains (s substr : string) : bool :=
match s with
| EmptyString => String.prefix substr EmptyString
| String _ s' => String.prefix substr s || Contains s' substr
end.

Definition lower_byte (c : ascii) : ascii :=
let n := nat_of_ascii c in
if (Nat.leb 65 n && Nat.leb n 90)%bool then ascii_of_nat (n + 32) else c.

(** [strings.ToLower(s)], on the ASCII letters (engine names are ASCII). *)
Fixpoint ToLower (s : string) : string :=
match s with
| EmptyString => EmptyString
| String c s' => String (lower_byte c) (ToLower s')
end.

(** The [%d] verb of [fmt]. *)
Definition format_d (z : Z) : string := NilZero.string_of_int (Z.to_int z).

(** ** Errors *)

(** The package's sentinel errors are values of their own ([errors.New]
    allocates each one); an error that comes back from the SDK, from
    database/sql or from the OS can never be one of them. *)
Inductive error : Type :=
| ErrDBInstancetNotFound
| ErrSnapshotNotFound
| ErrDriverNotFound
| ErrRdsTypesNotFound
| ErrRdsARNsNotFound
| ExternalError (msg : string).

(** [err.Error()] *)
Definition Error (e : error) : string :=
match e with
| ErrDBInstancetNotFound => "DB Instance is not found"
| ErrSnapshotNotFound => "DB　Snapshot is not found"
| ErrDriverNotFound => "DB　Driver is not found"
| ErrRdsTypesNotFound => "RDS Types is not found"
| ErrRdsARNsNotFound => "RDS ARN Types is not found"
| ExternalError msg => msg
end.

(** ** The SDK's data (package rds) *)

Record Tag : Type := { Key : string; Value : string }.

Record DBInstance : Type := {
  DBInstanceIdentifier : string;
  DBInstanceStatus : string;
  DBSubnetGroupName : string;
  StorageType : string
}.

Record DBSnapshot : Type := {
  DBSnapshotIdentifier : string;
  Status : string
}.

Record Endpoint : Type := { Address : string; Port : Z }.

Record DescribeDBInstancesMessage : Type := {
  dim_DBInstanceIdentifier : option string
}.

Record DescribeDBSnapshotsMessage : Type := {
  dsm_DBInstanceIdentifier : option string;
  dsm_DBSnapshotIdentifier : option string
}.

Record RestoreDBInstanceFromDBSnapshotMessage : Type := {
  rm_DBInstanceClass : string;
  rm_DBInstanceIdentifier : string;
  rm_MultiAZ : bool;
  rm_DBSnapshotIdentifier : string;
  rm_DBSubnetGroupName : string;
  rm_StorageType : string;
  rm_Tags : list Tag
}.

Record CreateDBSnapshotMessage : Type := {
  cm_DBInstanceIdentifier : string;
  cm_DBSnapshotIdentifier : string;
  cm_Tags : list Tag
}.

Record DeleteDBInstanceMessage : Type := {
  delm_DBInstanceIdentifier : string;
  delm_SkipFinalSnapshot : bool
}.

(** ** database/sql *)

(** A value as the driver hands it over: SQL NULL, bytes, or a value
    [Scan] cannot store in a [*[]byte] destination. *)
Inductive driver_value : Type :=
| DNull
| DBytes (b : string)
| DUnsupported.

(** [*sql.Rows]: the column names (or the error of [Columns()]) and the
    rows still to be read. *)
Record Rows : Type := {
  Columns : string + list string;
  pending : list (list driver_value)
}.

(** ** The outside world *)

(** A value of an [interface{}] parameter, by its dynamic type; the
    pointers are not nil. *)
Inductive any : Type :=
| DBSnapshotVal (s : DBSnapshot)
| DBInstanceVal (i : DBInstance)
| DBSnapshotPtr (s : DBSnapshot)
| DBInstancePtr (i : DBInstance)
| DBSnapshotSlice (l : list DBSnapshot)
| DBInstanceSlice (l : list DBInstance)
| OtherVal.

(** Calls that leave the package. *)
Inductive call : Type :=
| CDescribeDBInstances (m : DescribeDBInstancesMessage)
| CDescribeDBSnapshots (m : DescribeDBSnapshotsMessage)
| CListTagsForResource (ResourceName : string)
| CRestoreDBInstanceFromDBSnapshot (m : RestoreDBInstanceFromDBSnapshotMessage)
| CCreateDBSnapshot (m : CreateDBSnapshotMessage)
| CDeleteDBInstance (m : DeleteDBInstanceMessage)
| CDeleteDBSnapshot (id : string)
| CSqlOpen (driver dsn : string)
| CQuery (sql : string)
| CDbClose
| COpenFile (path : string)
| CTruncate
| CWriteFile (records : list (list string))
| CFileClose.

Inductive level : Type := LDebug | LInfo | LError.

(** A log line: level, format string and arguments. *)
Inductive arg : Type :=
| AStr (s : string)
| AInt (z : Z)
| ATime (t : Z)
| ABool (b : bool)
| AQuery (name sql : string).

Record log_entry : Type := { lvl : level; fmt : string; args : list arg }.

(** [rds.RDS], the client of the provider gateway. *)
Record RDS (St : Type) : Type := {
  rds_DescribeDBInstances :
    DescribeDBInstancesMessage -> St -> (string + list DBInstance) * St;
  rds_DescribeDBSnapshots :
    DescribeDBSnapshotsMessage -> St -> (string + list DBSnapshot) * St;
  rds_ListTagsForResource : string -> St -> (string + list Tag) * St;
  rds_RestoreDBInstanceFromDBSnapshot :
    RestoreDBInstanceFromDBSnapshotMessage -> St -> (string + DBInstance) * St;
  rds_CreateDBSnapshot : CreateDBSnapshotMessage -> St -> (string + DBSnapshot) * St;
  rds_DeleteDBInstance : DeleteDBInstanceMessage -> St -> (string + DBInstance) * St;
  rds_DeleteDBSnapshot : string -> St -> (string + DBSnapshot) * St
}.

(** Package utils (a package of this repository whose source is not at
    hand: its functions are parameters), the clock, database/sql and the
    file system.  One connection and one file are open at a time, so the
    handles are left out. *)
Record Runtime (St : Type) : Type := {
  GetFormatedAppName : string;
  GetFormatedTime : St -> string * St;
  GetFormatedDBDisplayName : string -> St -> string * St;
  GetHomeDir : St -> string * St;
  path_Join : string -> string -> string;
  time_Now : St -> Z * St;
  sql_Open : string -> string -> St -> (string + unit) * St;
  db_Query : string -> St -> (string + Rows) * St;
  db_Close : St -> (string + unit) * St;
  os_OpenFile : string -> St -> (string + unit) * St;
  file_Truncate : St -> (string + unit) * St;
  file_Write : list (list string) -> St -> (string + unit) * St;
  file_Close : St -> (string + unit) * St
}.

Record OutConfig : Type := { File : bool; Root : string; Bom : bool }.
Record RDSConfig : Type := { User : string; Pass : string }.

Record Command (St : Type) : Type := {
  cmd_OutConfig : OutConfig;
  cmd_RDSConfig : RDSConfig;
  RDSClient : RDS St;
  ARNPrefix : string
}.

(** The state the model threads: the outside world, the calls issued so
    far, each with whether it succeeded, and the log written so far. *)
Record World (St : Type) : Type := {
  ext : St;
  calls : list (call * bool);
  logs : list log_entry
}.

Definition M (St A : Type) : Type := World St -> A * World St.

Definition ret {St A : Type} (a : A) : M St A := fun w => (a, w).

Definition bind {St A B : Type} (m : M St A) (k : A -> M St B) : M St B :=
fun w => let (a, w') := m w in k a w'.

Declare Scope cmd_scope.
Delimit Scope cmd_scope with cmd.
Notation "x <- m ;; k" := (bind m (fun x => k))
  (at level 100, m at next level, right associativity) : cmd_scope.
Notation "m ;;; k" := (bind m (fun _ => k))
  (at level 100, right associativity) : cmd_scope.
Open Scope cmd_scope.

Definition succeeded {A B : Type} (r : A + B) : bool :=
match r with inl _ => false | inr _ => true end.

(** A call to the outside: answered by the world and recorded. *)
Definition invoke {St A : Type} (k : call) (f : St -> (string + A) * St) : M St (error + A) :=
fun w =>
  let (r, s') := f (ext w) in
  (match r with inl msg => inl (ExternalError msg) | inr a => inr a end,
   {| ext := s'; calls := calls w ++ [(k, succeeded r)]; logs := logs w |}).

(** A read of the outside that cannot fail (the clock, package utils). *)
Definition observe {St A : Type} (f : St -> A * St) : M St A :=
fun w =>
  let (a, s') := f (ext w) in
  (a, {| ext := s'; calls := calls w; logs := logs w |}).

Definition logf {St : Type} (l : level) (f : string) (a : list arg) : M St unit :=
fun w =>
  (tt, {| ext := ext w; calls := calls w;
          logs := logs w ++ [{| lvl := l; fmt := f; args := a |}] |}).

Definition Debugf {St : Type} := @logf St LDebug.
Definition Infof {St : Type} := @logf St LInfo.
Definition Errorf {St : Type} := @logf St LError.

(** [for _, x := range l { ... }] over an accumulator, without early exit. *)
Fixpoint range {St A B : Type} (body : B -> A -> M St B) (l : list A) (acc : B) : M St B :=
match l with
| [] => ret acc
| x :: l' => acc' <- body acc x ;; range body l' acc'
end.

(** ** The package *)

Section Package.

Variable St : Type.
Variable rt : Runtime St.

Definition describeDBInstances (c : Command St) (message : DescribeDBInstancesMessage)
  : M St (error + list DBInstance) :=
r <- invoke (CDescribeDBInstances message)
       (rds_DescribeDBInstances (RDSClient c) message) ;;
match r with
| inl err => Errorf "%s" [AStr (Error err)] ;;; ret (inl err)
| inr resp => ret (inr resp)
end.

(** [&resp[db_len-1]]; the index is in range whenever [db_len >= 1]. *)
Definition last_index {A : Type} (resp : list A) : option A :=
nth_error resp (length resp - 1).

Definition DescribeDBInstance (c : Command St) (dbIdentifier : string)
  : M St (error + DBInstance) :=
let message := {| dim_DBInstanceIdentifier := Some dbIdentifier |} in
r <- describeDBInstances c message ;;
match r with
| inl err => ret (inl err)
| inr resp =>
    let db_len := length resp in
    if (db_len <? 1)%nat then
      Errorf "%s" [AStr (Error ErrDBInstancetNotFound)] ;;;
      ret (inl ErrDBInstancetNotFound)
    else
      match last_index resp with
      | Some i => ret (inr i)
      | None => ret (inl ErrDBInstancetNotFound)
      end
end.

Definition describeDBSnapshots (c : Command St) (message : DescribeDBSnapshotsMessage)
  : M St (error + list DBSnapshot) :=
r <- invoke (CDescribeDBSnapshots message)
       (rds_DescribeDBSnapshots (RDSClient c) message) ;;
match r with
| inl err => Errorf "%s" [AStr (Error err)] ;;; ret (inl err)
| inr resp => ret (inr resp)
end.

Definition rt_name_text : string := "rt_name".
Definition rt_time_text : string := "rt_time".

Definition getARNString (c : Command St) (rdstypes : any) : M St string :=
arn <- match rdstypes with
       | DBSnapshotVal rdstype =>
           ret (ARNPrefix c ++ "snapshot:" ++ DBSnapshotIdentifier rdstype)
       | DBInstanceVal rdstype =>
           ret (ARNPrefix c ++ "db:" ++ DBInstanceIdentifier rdstype)
       | _ => Errorf "%s" [AStr (Error ErrRdsARNsNotFound)] ;;; ret ""
       end ;;
Debugf "ARN: %s" [AStr arn] ;;;
ret arn.

(** The body of the [switch *tag.Key] inside the loop over the tag list. *)
Definition count_tag (tag_cnt : nat) (tag : Tag) : nat :=
if Key tag =? rt_name_text then
  if HasPrefix (Value tag) (GetFormatedAppName rt) then tag_cnt + 1 else tag_cnt
else if Key tag =? rt_time_text then tag_cnt + 1
else tag_cnt.

Definition checkListTagsForResourceMessage (c : Command St) (rdstypes : any)
  : M St (bool * option error) :=
let state := false in
arn <- getARNString c rdstypes ;;
r <- invoke (CListTagsForResource arn) (rds_ListTagsForResource (RDSClient c) arn) ;;
match r with
| inl err => Errorf "%s" [AStr (Error err)] ;;; ret (state, Some err)
| inr TagList =>
    if (length TagList <=? 0)%nat then ret (state, None)
    else
      let tag_cnt := fold_left count_tag TagList 0 in
      if (2 <=? tag_cnt)%nat then ret (true, None)
      else ret (state, None)
end.

(** The loop shared in shape by the two discovery functions: the first
    failing check returns [nil, err], an owned element is appended. *)
Fixpoint collectByTags {A : Type} (c : Command St) (wrap : A -> any)
  (resp : list A) (acc : list A) : M St (error + list A) :=
match resp with
| [] => ret (inr acc)
| x :: resp' =>
    r <- checkListTagsForResourceMessage c (wrap x) ;;
    match r with
    | (_, Some err) => ret (inl err)
    | (state, None) =>
        collectByTags c wrap resp' (if state then (acc ++ [x])%list else acc)
    end
end.

Definition DescribeDBInstancesByTags (c : Command St) : M St (error + list DBInstance) :=
let message := {| dim_DBInstanceIdentifier := None |} in
r <- describeDBInstances c message ;;
match r with
| inl err => ret (inl err)
| inr resp => collectByTags c DBInstanceVal resp []
end.

Definition DescribeDBSnapshotsByTags (c : Command St) : M St (error + list DBSnapshot) :=
let message := {| dsm_DBInstanceIdentifier := None; dsm_DBSnapshotIdentifier := None |} in
r <- describeDBSnapshots c message ;;
match r with
| inl err => ret (inl err)
| inr resp => collectByTags c DBSnapshotVal resp []
end.

(** [getSpecifyTags]: the name tag, then the time tag. *)
Definition getSpecifyTags : M St (list Tag) :=
let tag_list : list Tag := [] in
let tag := {| Key := rt_name_text; Value := GetFormatedAppName rt |} in
let tag_list := (tag_list ++ [tag])%list in
now <- observe (GetFormatedTime rt) ;;
let tag := {| Key := rt_time_text; Value := now |} in
let tag_list := (tag_list ++ [tag])%list in
ret tag_list.

Record RestoreDBInstanceFromDBSnapshotArgs : Type := {
  ra_DBInstanceClass : string;
  ra_DBIdentifier : string;
  ra_MultiAZ : bool;
  ra_Snapshot : DBSnapshot;
  ra_Instance : DBInstance
}.

Definition RestoreDBInstanceFromDBSnapshot (c : Command St)
  (args : RestoreDBInstanceFromDBSnapshotArgs) : M St (error + DBInstance) :=
tags <- getSpecifyTags ;;
let message := {|
  rm_DBInstanceClass := ra_DBInstanceClass args;
  rm_DBInstanceIdentifier := ra_DBIdentifier args;
  rm_MultiAZ := ra_MultiAZ args;
  rm_DBSnapshotIdentifier := DBSnapshotIdentifier (ra_Snapshot args);
  rm_DBSubnetGroupName := DBSubnetGroupName (ra_Instance args);
  rm_StorageType := StorageType (ra_Instance args);
  rm_Tags := tags |} in
r <- invoke (CRestoreDBInstanceFromDBSnapshot message)
       (rds_RestoreDBInstanceFromDBSnapshot (RDSClient c) message) ;;
match r with
| inl err => Errorf "%s" [AStr (Error err)] ;;; ret (inl err)
| inr resp => ret (inr resp)
end.


(** The loop of [DescribeLatestDBSnapshot] that keeps the available ones. *)
Definition keepAvailable (acc : list DBSnapshot) (snapshot : DBSnapshot)
  : M St (list DBSnapshot) :=
if negb (Status snapshot =? "available") then
  Debugf "DB Snapshot Status : %s" [AStr (Status snapshot)] ;;; ret acc
else ret (acc ++ [snapshot])%list.

Definition DescribeLatestDBSnapshot (c : Command St) (dbIdentifier : string)
  : M St (error + DBSnapshot) :=
let message := {| dsm_DBInstanceIdentifier := Some dbIdentifier;
                  dsm_DBSnapshotIdentifier := None |} in
r <- describeDBSnapshots c message ;;
match r with
| inl err => ret (inl err)
| inr resp =>
    dbSnapshots <- range keepAvailable resp [] ;;
    let db_len := length dbSnapshots in
    if (db_len <? 1)%nat then
      Errorf "%s" [AStr (Error ErrSnapshotNotFound)] ;;;
      ret (inl ErrSnapshotNotFound)
    else
      match last_index dbSnapshots with
      | Some s => ret (inr s)
      | None => ret (inl ErrSnapshotNotFound)
      end
end.

Definition DescribeDBSnapshot (c : Command St) (snapshotIdentifier : string)
  : M St (error + DBSnapshot) :=
let message := {| dsm_DBInstanceIdentifier := None;
                  dsm_DBSnapshotIdentifier := Some snapshotIdentifier |} in
r <- describeDBSnapshots c message ;;
match r with
| inl err => ret (inl err)
| inr resp =>
    let db_len := length resp in
    if (db_len <? 1)%nat then
      Errorf "%s" [AStr (Error ErrSnapshotNotFound)] ;;;
      ret (inl ErrSnapshotNotFound)
    else
      match last_index resp with
      | Some s => ret (inr s)
      | None => ret (inl ErrSnapshotNotFound)
      end
end.

Definition DeleteDBInstance (c : Command St) (dbIdentifier : string)
  : M St (error + DBInstance) :=
let message := {| delm_DBInstanceIdentifier := dbIdentifier;
                  delm_SkipFinalSnapshot := true |} in
r <- invoke (CDeleteDBInstance message) (rds_DeleteDBInstance (RDSClient c) message) ;;
match r with
| inl err => Errorf "%s" [AStr (Error err)] ;;; ret (inl err)
| inr resp => ret (inr resp)
end.

Definition DeleteDBSnapshot (c : Command St) (snapshotIdentifier : string)
  : M St (error + DBSnapshot) :=
r <- invoke (CDeleteDBSnapshot snapshotIdentifier)
       (rds_DeleteDBSnapshot (RDSClient c) snapshotIdentifier) ;;
match r with
| inl err => Errorf "%s" [AStr (Error err)] ;;; ret (inl err)
| inr resp => ret (inr resp)
end.

(** The two loops of [DeleteDBResources]; [i] is the loop index. *)
Fixpoint deleteSnapshots (c : Command St) (rdstype : list DBSnapshot) (i : nat)
  : M St (option error) :=
match rdstype with
| [] => ret None
| item :: rest =>
    r <- DeleteDBSnapshot c (DBSnapshotIdentifier item) ;;
    match r with
    | inl err => ret (Some err)
    | inr resp =>
        Infof "[% d] deleted DB Snapshot: %s"
          [AInt (Z.of_nat (i + 1)); AStr (DBSnapshotIdentifier resp)] ;;;
        deleteSnapshots c rest (i + 1)
    end
end.

Fixpoint deleteInstances (c : Command St) (rdstype : list DBInstance) (i : nat)
  : M St (option error) :=
match rdstype with
| [] => ret None
| item :: rest =>
    r <- DeleteDBInstance c (DBInstanceIdentifier item) ;;
    match r with
    | inl err => ret (Some err)
    | inr resp =>
        Infof "[% d] deleted DB Instance: %s"
          [AInt (Z.of_nat (i + 1)); AStr (DBInstanceIdentifier resp)] ;;;
        deleteInstances c rest (i + 1)
    end
end.

Definition DeleteDBResources (c : Command St) (rdstypes : any) : M St (option error) :=
match rdstypes with
| DBSnapshotSlice rdstype => deleteSnapshots c rdstype 0
| DBInstanceSlice rdstype => deleteInstances c rdstype 0
| _ => Errorf "%s" [AStr (Error ErrRdsTypesNotFound)] ;;; ret None
end.

(** *** The status waiter

    [WaitForStatusAvailable] makes an unbuffered channel, a 30-second
    ticker and a 30-minute timeout, starts a goroutine and returns the
    channel.  The goroutine is a loop around one [select]; the model runs
    it against the sequence of [select] cases that become ready, in the
    order the runtime picks them.  Real time is abstracted to that
    sequence; a stopped ticker delivers no further tick, and the timeout
    channel delivers once.

    The channel is unbuffered: a send completes only when the caller
    receives.  [receives] is the number of times the caller still receives
    from the channel; a send that finds no receiver blocks the goroutine
    for good. *)

Inductive goroutine : Type :=
| Selecting
| SendBlocked (v : bool)
| Panicked.

Record waiter : Type := {
  g : goroutine;
  ticker_running : bool;
  timeout_pending : bool;
  receives : nat;
  received : list bool
}.

(** The ready case of the [select], with the value read from the channel. *)
Inductive select_case : Type :=
| TickerC (tick : Z)
| TimeoutC (out : Z).

Definition running (wt : waiter) : bool :=
match g wt with Selecting => true | _ => false end.

(** [receiver <- v] *)
Definition send (v : bool) (wt : waiter) : waiter :=
match receives wt with
| O => {| g := SendBlocked v; ticker_running := ticker_running wt;
          timeout_pending := timeout_pending wt;
          receives := 0; received := received wt |}
| S n => {| g := g wt; ticker_running := ticker_running wt;
          timeout_pending := timeout_pending wt;
          receives := n; received := (received wt ++ [v])%list |}
end.

(** [ticker.Stop()] *)
Definition ticker_Stop (wt : waiter) : waiter :=
{| g := g wt; ticker_running := false; timeout_pending := timeout_pending wt;
   receives := receives wt; received := received wt |}.

(** A nil pointer dereference: the goroutine panics. *)
Definition panic (wt : waiter) : waiter :=
{| g := Panicked; ticker_running := ticker_running wt;
   timeout_pending := timeout_pending wt;
   receives := receives wt; received := received wt |}.

(** The value of the timeout channel has been read. *)
Definition timeout_read (wt : waiter) : waiter :=
{| g := g wt; ticker_running := ticker_running wt; timeout_pending := false;
   receives := receives wt; received := received wt |}.

(** [if err != nil { receiver <- false; ticker.Stop() }] followed by the
    dereference of the nil result of the describe call. *)
Definition describe_failed (wt : waiter) : waiter :=
let wt := send false wt in
if running wt then panic (ticker_Stop wt) else wt.

(** [if rds_status == "available" { receiver <- true; ...; ticker.Stop() }] *)
Definition check_status (rds_status : string) (wt : waiter) : M St waiter :=
if rds_status =? "available" then
  let wt := send true wt in
  if running wt then
    Infof "Status: %s" [AStr rds_status] ;;; ret (ticker_Stop wt)
  else ret wt
else ret wt.

(** The [case tick := <-ticker.C] branch. *)
Definition on_tick (c : Command St) (rdstypes : any) (tick : Z) (wt : waiter)
  : M St waiter :=
Debugf "tick: %s" [ATime tick] ;;;
match rdstypes with
| DBSnapshotPtr rdstype =>
    r <- DescribeDBSnapshot c (DBSnapshotIdentifier rdstype) ;;
    match r with
    | inl _ => ret (describe_failed wt)
    | inr db_snapshot =>
        let rds_status := Status db_snapshot in
        Infof "DB Snapshot Status: %s" [AStr rds_status] ;;;
        check_status rds_status wt
    end
| DBInstancePtr rdstype =>
    r <- DescribeDBInstance c (DBInstanceIdentifier rdstype) ;;
    match r with
    | inl _ => ret (describe_failed wt)
    | inr db_instance =>
        let rds_status := DBInstanceStatus db_instance in
        Infof "DB Instance Status: %s" [AStr rds_status] ;;;
        check_status rds_status wt
    end
| _ =>
    Errorf "%s" [AStr (Error ErrRdsTypesNotFound)] ;;;
    check_status "" wt
end.

(** The [case out := <-timeout] branch. *)
Definition on_timeout (out : Z) (wt : waiter) : M St waiter :=
let wt := send false (timeout_read wt) in
if running wt then
  Infof "time out: %s" [ATime out] ;;; ret (ticker_Stop wt)
else ret wt.

(** One turn of the [for { select { ... } }] loop.  A goroutine that is
    blocked in a send or has panicked takes no further turn. *)
Definition wait_step (c : Command St) (rdstypes : any) (wt : waiter)
  (ev : select_case) : M St waiter :=
if running wt then
  match ev with
  | TickerC tick => if ticker_running wt then on_tick c rdstypes tick wt else ret wt
  | TimeoutC out => if timeout_pending wt then on_timeout out wt else ret wt
  end
else ret wt.

(** The goroutine at its start, with a caller that receives [n] times. *)
Definition waiter_start (n : nat) : waiter :=
{| g := Selecting; ticker_running := true; timeout_pending := true;
   receives := n; received := [] |}.

Definition WaitForStatusAvailable (c : Command St) (rdstypes : any) (n : nat)
  (ready : list select_case) : M St waiter :=
range (wait_step c rdstypes) ready (waiter_start n).

(** *** The result exporter *)

Record writeCSVFileArgs : Type := {
  wa_Rows : Rows;
  FileName : string;
  Path : string;
  wa_Bom : bool
}.

(** U+FEFF in UTF-8. *)
Definition BOM : string :=
String (ascii_of_nat 239) (String (ascii_of_nat 187) (String (ascii_of_nat 191) EmptyString)).

(** [Rows.Scan] into [*[]byte] destinations, column by column: NULL
    stores nil, bytes are copied, and the first value that cannot be
    stored stops the scan with the remaining destinations untouched. *)
Fixpoint convertAssign (lastcols : list driver_value) (dest : list (option string))
  : list (option string) * option string :=
match lastcols, dest with
| sv :: lastcols', d :: dest' =>
    match sv with
    | DNull => let (r, e) := convertAssign lastcols' dest' in (None :: r, e)
    | DBytes b => let (r, e) := convertAssign lastcols' dest' in (Some b :: r, e)
    | DUnsupported => (d :: dest', Some "sql: Scan error: unsupported driver -> Scan pair")
    end
| _, _ => (dest, None)
end.

Definition Scan (lastcols : list driver_value) (dest : list (option string))
  : list (option string) * option string :=
if (length dest =? length lastcols)%nat then convertAssign lastcols dest
else (dest, Some "sql: wrong number of destination arguments in Scan").

(** [if raw == nil { result[i] = "null" } else { result[i] = string(raw) }] *)
Definition render (raw : option string) : string :=
match raw with
| None => "null"
| Some b => b
end.

(** The body of [for args.Rows.Next()]: the scan buffer [rawResult] lives
    across iterations, [writer] is what [csv.Writer] has been handed. *)
Definition writeRow (st : list (option string) * list (list string))
  (lastcols : list driver_value) : M St (list (option string) * list (list string)) :=
let (rawResult, writer) := st in
let (rawResult, err) := Scan lastcols rawResult in
match err with
| Some msg => Errorf "%s" [AStr msg]
| None => ret tt
end ;;;
let result := map render rawResult in
ret (rawResult, (writer ++ [result])%list).

(** [csv.Writer] is modelled by the records handed to it, which
    [writer.Flush()] writes to the file; a nil [*os.File] (a failed
    [os.OpenFile]) makes [Truncate], the write and [Close] fail without
    reaching the file system.  No error of these calls is ever read. *)
Definition writeCSVFile (args : writeCSVFileArgs) : M St bool :=
match Columns (wa_Rows args) with
| inl err => Errorf "%s" [AStr err] ;;; ret false
| inr cols =>
    let FileName' :=
      if wa_Bom args then "utf8-bom_" ++ FileName args else FileName args in
    let out_path := path_Join rt (Path args) FileName' in
    file <- invoke (COpenFile out_path) (os_OpenFile rt out_path) ;;
    match file with
    | inr _ => invoke CTruncate (file_Truncate rt)
    | inl _ => ret (inl (ExternalError "invalid argument"))
    end ;;;
    let writer : list (list string) := [] in
    let writer :=
      if wa_Bom args then
        (writer ++ [[(BOM ++ "# character encoding : utf-8 with BOM")%string]])%list
      else writer in
    let writer := (writer ++ [cols])%list in
    let rawResult : list (option string) := repeat None (length cols) in
    st <- range writeRow (pending (wa_Rows args)) (rawResult, writer) ;;
    match file with
    | inr _ => invoke (CWriteFile (snd st)) (file_Write rt (snd st))
    | inl _ => ret (inl (ExternalError "invalid argument"))
    end ;;;
    match file with
    | inr _ => invoke CFileClose (file_Close rt)
    | inl _ => ret (inl (ExternalError "invalid argument"))
    end ;;;
    ret true
end.

(** *** The query executor *)

Record Query : Type := { Name : string; Sql : string }.

Record ExecuteSQLArgs : Type := {
  Engine : string;
  ea_Endpoint : Endpoint;
  Queries : list Query
}.

Definition minDuration : Z := - 2 ^ 63.
Definition maxDuration : Z := 2 ^ 63 - 1.

(** [t.Sub(u)]: the difference, saturated to the range of a Duration. *)
Definition Sub (t u : Z) : Z := Z.max minDuration (Z.min maxDuration (t - u)).

Definition getDbOpenValues (c : Command St) (args : ExecuteSQLArgs)
  : M St (string * string) :=
let engine := ToLower (Engine args) in
Debugf "aws engine name: %s" [AStr engine] ;;;
r <- (if Contains engine "mysql" then
        ret ("mysql",
             User (cmd_RDSConfig c) ++ ":" ++ Pass (cmd_RDSConfig c) ++ "@tcp("
             ++ Address (ea_Endpoint args) ++ ":"
             ++ format_d (Port (ea_Endpoint args)) ++ ")/")
      else if Contains engine "oracle" then ret ("oracle", "")
      else if Contains engine "sqlserver" then ret ("sqlserver", "")
      else if Contains engine "postgres" then ret ("postgres", "")
      else
        Errorf "failed to convert. no matching SQL driver: %s" [AStr engine] ;;;
        ret ("", "")) ;;
Debugf "golang db driver name: %s" [AStr (fst r)] ;;;
Debugf "golang db data source name: %s" [AStr (snd r)] ;;;
ret r.

(** The output step of the loop body of [ExecuteSQL]. *)
Definition outputCSV (c : Command St) (value : Query) (result : Rows) : M St unit :=
let cols := match Columns result with inr cols => cols | inl _ => [] end in
if File (cmd_OutConfig c) && (0 <? length cols)%nat then
  now <- observe (GetFormatedTime rt) ;;
  let file_name := Name value ++ "-" ++ now ++ ".csv" in
  home <- observe (GetHomeDir rt) ;;
  let out_path :=
    if negb (Root (cmd_OutConfig c) =? "") then Root (cmd_OutConfig c) else home in
  out_state <- writeCSVFile {| wa_Rows := result; FileName := file_name;
                               Path := out_path; wa_Bom := Bom (cmd_OutConfig c) |} ;;
  Debugf "out_state:%+v" [ABool out_state]
else ret tt.

(** [for _, value := range args.Queries { ... }] with its early return. *)
Fixpoint runQueries (c : Command St) (queries : list Query) (times : list Z)
  : M St (list Z * option error) :=
match queries with
| [] => ret (times, None)
| value :: rest =>
    Debugf "query value : %s" [AQuery (Name value) (Sql value)] ;;;
    s_time <- observe (time_Now rt) ;;
    Infof "query start time: %s" [ATime s_time] ;;;
    r <- invoke (CQuery (Sql value)) (db_Query rt (Sql value)) ;;
    match r with
    | inl err => Errorf "%s" [AStr (Error err)] ;;; ret (times, Some err)
    | inr result =>
        e_time <- observe (time_Now rt) ;;
        Infof "query end time: %s" [ATime e_time] ;;;
        let times := (times ++ [Sub e_time s_time])%list in
        outputCSV c value result ;;;
        (* result.Close() releases the cursor *)
        runQueries c rest times
    end
end.

(** [defer db.Close()] runs after the loop, whichever way it ends. *)
Definition ExecuteSQL (c : Command St) (args : ExecuteSQLArgs)
  : M St (list Z * option error) :=
r <- getDbOpenValues c args ;;
let (driver, dsn) := r in
if driver =? "" then
  Errorf "%s" [AStr (Error ErrDriverNotFound)] ;;;
  ret ([], Some ErrDriverNotFound)
else
  db <- invoke (CSqlOpen driver dsn) (sql_Open rt driver dsn) ;;
  match db with
  | inl err => Errorf "%s" [AStr (Error err)] ;;; ret ([], Some err)
  | inr _ =>
      res <- runQueries c (Queries args) [] ;;
      invoke CDbClose (db_Close rt) ;;;
      ret res
  end.

End Package.

Arguments World : clear implicits.
Arguments M : clear implicits.

(** ** Reference definitions

    The notions the statements below are phrased in, in the words of the
    specification. *)

(** The ARN of a resource: the prefix, [db:] or [snapshot:], the identifier. *)
Definition arn_of {St : Type} (c : Command St) (x : any) : string :=
match x with
| DBSnapshotVal s => ARNPrefix c ++ "snapshot:" ++ DBSnapshotIdentifier s
| DBInstanceVal i => ARNPrefix c ++ "db:" ++ DBInstanceIdentifier i
| _ => ""
end.

(** A name tag whose value has the application name as a prefix. *)
Definition is_name_tag (app : string) (t : Tag) : bool :=
(Key t =? "rt_name") && HasPrefix (Value t) app.

(** A time tag, whatever its value. *)
Definition is_time_tag (t : Tag) : bool := Key t =? "rt_time".

(** The match count of a tag list: each matching tag counts once. *)
Definition match_count (app : string) (tags : list Tag) : nat :=
length (filter (is_name_tag app) tags) + length (filter is_time_tag tags).

(** The verdict on the answer of the tag listing. *)
Definition owned (app : string) (answer : string + list Tag) : bool :=
match answer with
| inl _ => false
| inr tags => (2 <=? match_count app tags)%nat
end.

(** The error of the first element whose tag listing fails, if any. *)
Fixpoint first_error {A : Type} (answer : A -> string + list Tag) (l : list A)
  : option error :=
match l with
| [] => None
| x :: l' =>
    match answer x with
    | inl msg => Some (ExternalError msg)
    | inr _ => first_error answer l'
    end
end.

Definition is_available (s : DBSnapshot) : bool := Status s =? "available".

(** The text of a value of the result set in the CSV file. *)
Definition text_of (v : driver_value) : string :=
match v with
| DNull => "null"
| DBytes b => b
| DUnsupported => ""
end.

Definition storable (v : driver_value) : bool :=
match v with DUnsupported => false | _ => true end.

(** The queries among the recorded calls, each with its outcome. *)
Definition queries_of (l : list (call * bool)) : list (string * bool) :=
flat_map (fun e => match e with (CQuery q, ok) => [(q, ok)] | _ => [] end) l.

(** The describe calls among the recorded calls. *)
Definition is_describe (e : call * bool) : bool :=
match fst e with
| CDescribeDBInstances _ | CDescribeDBSnapshots _ => true
| _ => false
end.

(** The calls issued between two states of the trace. *)
Definition issued {St : Type} (before after : World St) : list (call * bool) :=
skipn (length (calls before)) (calls after).

(** The driver and connection string, by first match in the order
    mysql, oracle, sqlserver, postgres. *)
Definition mysql_dsn {St : Type} (c : Command St) (e : Endpoint) : string :=
User (cmd_RDSConfig c) ++ ":" ++ Pass (cmd_RDSConfig c) ++ "@tcp("
++ Address e ++ ":" ++ format_d (Port e) ++ ")/".

(** The two tags of a resource the tool created. *)
Definition ownership_pair (app : string) (tags : list Tag) : Prop :=
exists v t, tags = [{| Key := "rt_name"; Value := v |}; {| Key := "rt_time"; Value := t |}]
  /\ HasPrefix v app = true.

(** The values [DeleteDBResources] deletes: a list of snapshots or of instances. *)
Definition is_resource_list (x : any) : bool :=
match x with
| DBSnapshotSlice _ | DBInstanceSlice _ => true
| _ => false
end.

(** ** Scripted worlds

    Concrete outside worlds to run the code in: the state counts the
    interactions, the answers are fixed tables. *)

Definition scripted_rds (instances : string + list DBInstance)
  (snapshots : string + list DBSnapshot) (tags : string -> string + list Tag)
  : RDS nat := {|
  rds_DescribeDBInstances := fun _ n => (instances, S n);
  rds_DescribeDBSnapshots := fun _ n => (snapshots, S n);
  rds_ListTagsForResource := fun arn n => (tags arn, S n);
  rds_RestoreDBInstanceFromDBSnapshot := fun m n =>
    (inr {| DBInstanceIdentifier := rm_DBInstanceIdentifier m;
            DBInstanceStatus := "creating";
            DBSubnetGroupName := rm_DBSubnetGroupName m;
            StorageType := rm_StorageType m |}, S n);
  rds_CreateDBSnapshot := fun m n =>
    (inr {| DBSnapshotIdentifier := cm_DBSnapshotIdentifier m;
            Status := "creating" |}, S n);
  rds_DeleteDBInstance := fun m n =>
    (inr {| DBInstanceIdentifier := delm_DBInstanceIdentifier m;
            DBInstanceStatus := "deleting";
            DBSubnetGroupName := ""; StorageType := "" |}, S n);
  rds_DeleteDBSnapshot := fun id n =>
    (inr {| DBSnapshotIdentifier := id; Status := "deleted" |}, S n)
|}.

Definition scripted_runtime (query : string -> string + Rows) (file_ok : bool)
  : Runtime nat := {|
  GetFormatedAppName := "rds-try";
  GetFormatedTime := fun n => ("20150101-000000", S n);
  GetFormatedDBDisplayName := fun id n => ("rds-try-" ++ id, S n);
  GetHomeDir := fun n => ("/home/user", S n);
  path_Join := fun d f => d ++ "/" ++ f;
  time_Now := fun n => ((Z.of_nat n * 1000)%Z, S n);
  sql_Open := fun driver _ n =>
    (if driver =? "mysql" then inr tt else inl "sql: unknown driver", S n);
  db_Query := fun q n => (query q, S n);
  db_Close := fun n => (inr tt, S n);
  os_OpenFile := fun _ n =>
    (if file_ok then inr tt else inl "open: no such file or directory", S n);
  file_Truncate := fun n => (if file_ok then inr tt else inl "truncate: bad file", S n);
  file_Write := fun _ n => (if file_ok then inr tt else inl "write: bad file", S n);
  file_Close := fun n => (inr tt, S n)
|}.

Definition scripted_command (rds : RDS nat) (out : OutConfig) : Command nat := {|
  cmd_OutConfig := out;
  cmd_RDSConfig := {| User := "user"; Pass := "pass" |};
  RDSClient := rds;
  ARNPrefix := "arn:aws:rds:us-east-1:123456789012:"
|}.

Definition world0 : World nat := {| ext := 0; calls := []; logs := [] |}.

Definition no_output : OutConfig := {| File := false; Root := ""; Bom := false |}.
Definition csv_output : OutConfig := {| File := true; Root := "/tmp/out"; Bom := false |}.

Definition tag (k v : string) : Tag := {| Key := k; Value := v |}.

Definition instance (id status : string) : DBInstance :=
{| DBInstanceIdentifier := id; DBInstanceStatus := status;
   DBSubnetGroupName := "default"; StorageType := "gp2" |}.

Definition snapshot (id status : string) : DBSnapshot :=
{| DBSnapshotIdentifier := id; Status := status |}.

(** A gateway with four instances: [a] carries both tags, [b] two time
    tags and no name tag, [c] a name tag of another application, and the
    tag listing of [d] fails. *)
Definition tags_table (arn : string) : string + list Tag :=
if arn =? "arn:aws:rds:us-east-1:123456789012:db:a" then
  inr [tag "rt_name" "rds-try-clone"; tag "rt_time" "20150101-000000"]
else if arn =? "arn:aws:rds:us-east-1:123456789012:db:b" then
  inr [tag "rt_time" "20150101-000000"; tag "rt_time" "20150102-000000"]
else if arn =? "arn:aws:rds:us-east-1:123456789012:db:c" then
  inr [tag "rt_name" "other"; tag "rt_time" "20150101-000000"]
else if arn =? "arn:aws:rds:us-east-1:123456789012:snapshot:s1" then
  inr [tag "rt_name" "rds-try"; tag "rt_time" "20150101-000000"]
else if arn =? "arn:aws:rds:us-east-1:123456789012:snapshot:s2" then
  inr [tag "rt_time" "20150101-000000"]
else inl "AccessDenied".

Definition quiet_runtime : Runtime nat := scripted_runtime (fun _ => inl "no database") true.

Definition tagged_command : Command nat :=
scripted_command
  (scripted_rds (inr [instance "c" "available"; instance "a" "available"])
     (inr [snapshot "s1" "available"; snapshot "s2" "creating"]) tags_table)
  no_output.

(** What a successful scan stores for a value. *)
Definition to_raw (v : driver_value) : option string :=
match v with
| DBytes b => Some b
| _ => None
end.

(** The data rows of the file, read through one scan buffer. *)
Fixpoint scan_rows (rows : list (list driver_value)) (rawResult : list (option string))
  : list (list string) :=
match rows with
| [] => []
| lastcols :: rows' =>
    let rawResult' := fst (Scan lastcols rawResult) in
    map render rawResult' :: scan_rows rows' rawResult'
end.

(** The keywords of the driver derivation, in the order they are tried. *)
Definition drivers : list string := ["mysql"; "oracle"; "sqlserver"; "postgres"].

Definition first_match (engine : string) : option string :=
find (Contains engine) drivers.

(** A result set with columns [id, name] and rows [(1, "a"), (2, NULL)]. *)
Definition two_rows : Rows :=
{| Columns := inr ["id"; "name"];
   pending := [[DBytes "1"; DBytes "a"]; [DBytes "2"; DNull]] |}.

Definition two_rows_args : writeCSVFileArgs :=
{| wa_Rows := two_rows; FileName := "q1-20150101-000000.csv";
   Path := "/tmp/out"; wa_Bom := false |}.

(** A database on which the statement [bad] fails and every other
    statement returns [two_rows]. *)
Definition answers (q : string) : string + Rows :=
if q =? "bad" then inl "Error 1064: You have an error in your SQL syntax"
else inr two_rows.

Definition mysql_args (engine : string) (queries : list Query) : ExecuteSQLArgs :=
{| Engine := engine;
   ea_Endpoint := {| Address := "clone.example.com"; Port := 3306 |};
   Queries := queries |}.

Definition three_queries : list Query :=
[{| Name := "q1"; Sql := "select 1" |};
 {| Name := "q2"; Sql := "bad" |};
 {| Name := "q3"; Sql := "select 3" |}].

Definition sql_runtime : Runtime nat := scripted_runtime answers true.

(** A world in which no file can be opened. *)
Definition readonly_runtime : Runtime nat := scripted_runtime answers false.

Definition clone : DBInstance := instance "clone" "creating".

(** A gateway on which the clone is already available. *)
Definition ready_command : Command nat :=
scripted_command
  (scripted_rds (inr [instance "clone" "available"]) (inr []) tags_table) no_output.

(** A gateway whose describe calls fail. *)
Definition failing_command : Command nat :=
scripted_command
  (scripted_rds (inl "RequestError: send request failed") (inr []) tags_table)
  no_output.

Definition csv_command : Command nat :=
scripted_command (scripted_rds (inr []) (inr []) tags_table) csv_output.

(** A gateway on which the clone becomes available at the third describe
    call (the state counts the calls). *)
Definition warming_command : Command nat :=
scripted_command {|
  rds_DescribeDBInstances := fun _ n =>
    (inr [instance "clone" (if (2 <=? n)%nat then "available" else "creating")], S n);
  rds_DescribeDBSnapshots := fun _ n => (inr [], S n);
  rds_ListTagsForResource := fun arn n => (tags_table arn, S n);
  rds_RestoreDBInstanceFromDBSnapshot := fun _ n => (inl "not scripted", S n);
  rds_CreateDBSnapshot := fun _ n => (inl "not scripted", S n);
  rds_DeleteDBInstance := fun _ n => (inl "not scripted", S n);
  rds_DeleteDBSnapshot := fun _ n => (inl "not scripted", S n)
|} no_output.

(** ** More of the package: pending status, modify and reboot

    [CheckPendingStatus] and [ModifyDBInstance] read two lists of
    [rds.DBInstance] that no function above looks at; they are kept in a
    record of their own.  The two requests are recorded in a trace of
    their own, carried next to the state of the outside world. *)

Record DBParameterGroupStatus : Type := {
  DBParameterGroupName : string;
  ParameterApplyStatus : string
}.

Record VPCSecurityGroupMembership : Type := {
  VPCSecurityGroupID : string;
  vsg_Status : string
}.

Record DBInstanceGroups : Type := {
  DBParameterGroups : list DBParameterGroupStatus;
  VPCSecurityGroups : list VPCSecurityGroupMembership
}.

Record ModifyDBInstanceMessage : Type := {
  mm_DBInstanceIdentifier : string;
  mm_DBParameterGroupName : string;
  mm_VPCSecurityGroupIDs : list string;
  mm_ApplyImmediately : bool
}.

Inductive instance_call : Type :=
| CModifyDBInstance (m : ModifyDBInstanceMessage)
| CRebootDBInstance (id : string).

Record RDSInstanceOps (St : Type) : Type := {
  rds_ModifyDBInstance : ModifyDBInstanceMessage -> St -> (string + DBInstance) * St;
  rds_RebootDBInstance : string -> St -> (string + DBInstance) * St
}.

(** The outside world together with the modify and reboot requests sent. *)
Definition Traced (St : Type) : Type := (St * list (instance_call * bool))%type.

Definition invoke_instance {St A : Type} (k : instance_call)
  (f : St -> (string + A) * St) : M (Traced St) (error + A) :=
fun w =>
  let (r, s') := f (fst (ext w)) in
  (match r with inl msg => inl (ExternalError msg) | inr a => inr a end,
   {| ext := (s', (snd (ext w) ++ [(k, succeeded r)])%list);
      calls := calls w; logs := logs w |}).

(** The first loop of [CheckPendingStatus]. *)
Fixpoint pendingParameterGroups (items : list DBParameterGroupStatus) : bool :=
match items with
| [] => false
| item :: items' =>
    if negb (ParameterApplyStatus item =? "in-sync") then true
    else pendingParameterGroups items'
end.

(** The second loop of [CheckPendingStatus]. *)
Fixpoint pendingSecurityGroups (items : list VPCSecurityGroupMembership) : bool :=
match items with
| [] => false
| item :: items' =>
    if negb (vsg_Status item =? "active") then true
    else pendingSecurityGroups items'
end.

Definition CheckPendingStatus (dbInstance : DBInstanceGroups) : bool :=
if pendingParameterGroups (DBParameterGroups dbInstance) then true
else if pendingSecurityGroups (VPCSecurityGroups dbInstance) then true
else false.

(** [ModifyDBInstance]; the result is [None] when indexing
    [DBParameterGroups[0]] panics. *)
Definition ModifyDBInstance {St : Type} (ops : RDSInstanceOps St)
  (dbIdentifier : string) (dbInstance : DBInstanceGroups)
  : M (Traced St) (option (error + DBInstance)) :=
let vpc_ids :=
  fold_left (fun vpc_ids vpc_id => (vpc_ids ++ [VPCSecurityGroupID vpc_id])%list)
    (VPCSecurityGroups dbInstance) [] in
match nth_error (DBParameterGroups dbInstance) 0 with
| None => ret None
| Some group =>
    let message := {|
      mm_DBInstanceIdentifier := dbIdentifier;
      mm_DBParameterGroupName := DBParameterGroupName group;
      mm_VPCSecurityGroupIDs := vpc_ids;
      mm_ApplyImmediately := true |} in
    r <- invoke_instance (CModifyDBInstance message) (rds_ModifyDBInstance ops message) ;;
    match r with
    | inl err => Errorf "%s" [AStr (Error err)] ;;; ret (Some (inl err))
    | inr resp => ret (Some (inr resp))
    end
end.

Definition RebootDBInstance {St : Type} (ops : RDSInstanceOps St)
  (dbIdentifier : string) : M (Traced St) (error + DBInstance) :=
r <- invoke_instance (CRebootDBInstance dbIdentifier)
       (rds_RebootDBInstance ops dbIdentifier) ;;
match r with
| inl err => Errorf "%s" [AStr (Error err)] ;;; ret (inl err)
| inr resp => ret (inr resp)
end.

(** ** Reference definitions for the traces *)

Definition is_file_call (e : call * bool) : bool :=
match fst e with
| COpenFile _ | CTruncate | CWriteFile _ | CFileClose => true
| _ => false
end.

Definition is_query_call (e : call * bool) : bool :=
match fst e with
| CQuery _ => true
| _ => false
end.

(** The tag listings of a discovery run: one per element, up to and
    including the first one that fails. *)
Fixpoint listings_until_error (answer : string -> string + list Tag)
  (arns : list string) : list (call * bool) :=
match arns with
| [] => []
| arn :: arns' =>
    match answer arn with
    | inl _ => [(CListTagsForResource arn, false)]
    | inr _ => (CListTagsForResource arn, true) :: listings_until_error answer arns'
    end
end.

(** The values whose ARN [getARNString] knows how to build. *)
Definition has_arn (x : any) : bool :=
match x with
| DBSnapshotVal _ | DBInstanceVal _ => true
| _ => false
end.

(** The values the status waiter knows how to describe. *)
Definition is_waitable (x : any) : bool :=
match x with
| DBSnapshotPtr _ | DBInstancePtr _ => true
| _ => false
end.


(** ** More scripted worlds *)

Definition scripted_instance_ops : RDSInstanceOps nat := {|
  rds_ModifyDBInstance := fun m n =>
    (inr (instance (mm_DBInstanceIdentifier m) "modifying"), S n);
  rds_RebootDBInstance := fun id n => (inr (instance id "rebooting"), S n)
|}.

Definition traced0 : World (Traced nat) := {| ext := (0, []); calls := []; logs := [] |}.


(** A gateway on which the second delete fails (the state counts the calls). *)
Definition second_delete_fails : Command nat :=
scripted_command {|
  rds_DescribeDBInstances := fun _ n => (inr [], S n);
  rds_DescribeDBSnapshots := fun _ n => (inr [], S n);
  rds_ListTagsForResource := fun arn n => (tags_table arn, S n);
  rds_RestoreDBInstanceFromDBSnapshot := fun _ n => (inl "not scripted", S n);
  rds_CreateDBSnapshot := fun _ n => (inl "not scripted", S n);
  rds_DeleteDBInstance := fun m n =>
    (if (n =? 1)%nat then inl "InvalidDBInstanceState"
     else inr (instance (delm_DBInstanceIdentifier m) "deleting"), S n);
  rds_DeleteDBSnapshot := fun id n =>
    (if (n =? 1)%nat then inl "InvalidDBSnapshotState"
     else inr (snapshot id "deleted"), S n)
|} no_output.

(** A result set whose second row holds a value the scan cannot store. *)
Definition bad_second_row : list (list driver_value) :=
[[DBytes "1"; DBytes "a"; DBytes "x"]; [DBytes "2"; DUnsupported; DBytes "y"]].

Definition bad_rows_args : writeCSVFileArgs :=
{| wa_Rows := {| Columns := inr ["id"; "name"; "note"]; pending := bad_second_row |};
   FileName := "q1-20150101-000000.csv"; Path := "/tmp/out"; wa_Bom := true |}.

Definition quiet_sql_command : Command nat :=
scripted_command (scripted_rds (inr []) (inr []) tags_table) no_output.

Definition pending_groups : DBInstanceGroups :=
{| DBParameterGroups :=
     [{| DBParameterGroupName := "default.mysql5.6"; ParameterApplyStatus := "in-sync" |};
      {| DBParameterGroupName := "custom"; ParameterApplyStatus := "applying" |}];
   VPCSecurityGroups :=
     [{| VPCSecurityGroupID := "sg-1"; vsg_Status := "active" |};
      {| VPCSecurityGroupID := "sg-2"; vsg_Status := "active" |}] |}.

(** * Properties *)

Open Scope list_scope.

(** ** The monad and the trace *)

Ltac run :=
  unfold Errorf, Infof, Debugf, logf, invoke, observe, bind, ret in *; cbn [fst snd ext calls logs] in *.

Lemma skipn_length_app {A : Type} (l l' : list A) : skipn (length l) (l ++ l') = l'.
Proof. induction l as [|a l IH]; simpl; auto. Qed.

Lemma issued_app {St : Type} (w w' : World St) (l : list (call * bool)) :
  calls w' = calls w ++ l -> issued w w' = l.
Proof. unfold issued. intros ->. apply skipn_length_app. Qed.

Lemma prefix_refl (s : string) : String.prefix s s = true.
Proof.
  induction s as [|a s IH]; simpl; auto.
  destruct (ascii_dec a a); congruence.
Qed.

Lemma last_index_app {A : Type} (l : list A) (x : A) : last_index (l ++ [x]) = Some x.
Proof.
  unfold last_index. rewrite length_app. simpl.
  replace (length l + 1 - 1) with (length l) by lia.
  rewrite nth_error_app2 by lia. rewrite Nat.sub_diag. reflexivity.
Qed.

Section Properties.

Variable St : Type.
Variable rt : Runtime St.
Implicit Types (c : Command St) (w : World St).

Local Abbreviation appname := (GetFormatedAppName rt).

(** ** The tag registry *)

Lemma getARNString_spec c x w :
  exists l, getARNString c x w =
    (arn_of c x, {| ext := ext w; calls := calls w; logs := logs w ++ l |}).
Proof.
  unfold getARNString. run. destruct x; simpl; eexists; rewrite <- ?app_assoc; reflexivity.
Qed.

Lemma count_tag_match (n : nat) (t : Tag) :
  count_tag rt n t =
  n + (if is_name_tag appname t then 1 else 0) + (if is_time_tag t then 1 else 0).
Proof.
  unfold count_tag, is_name_tag, is_time_tag, rt_name_text, rt_time_text.
  destruct (String.eqb_spec (Key t) "rt_name") as [E|E].
  - rewrite E. simpl. destruct (HasPrefix (Value t) appname); lia.
  - simpl. destruct (Key t =? "rt_time"); lia.
Qed.

Lemma fold_count_tag (tags : list Tag) (n : nat) :
  fold_left (count_tag rt) tags n = n + match_count appname tags.
Proof.
  revert n. unfold match_count.
  induction tags as [|t tags IH]; intros n; simpl.
  - lia.
  - rewrite IH, count_tag_match.
    destruct (is_name_tag appname t), (is_time_tag t); simpl; lia.
Qed.

(** The check is the verdict on the answer of the tag listing; it leaves
    one call in the trace. *)
Lemma checkListTags_spec c x w :
  let answer := rds_ListTagsForResource (RDSClient c) (arn_of c x) (ext w) in
  exists l,
    checkListTagsForResourceMessage rt c x w =
    ((owned appname (fst answer),
      match fst answer with inl msg => Some (ExternalError msg) | inr _ => None end),
     {| ext := snd answer;
        calls := calls w ++ [(CListTagsForResource (arn_of c x), succeeded (fst answer))];
        logs := logs w ++ l |}).
Proof.
  intros answer. unfold checkListTagsForResourceMessage.
  destruct (getARNString_spec c x w) as [l0 E0].
  unfold bind at 1. rewrite E0. run. fold answer.
  destruct answer as [[msg|tags] s']; simpl.
  - eexists. rewrite <- app_assoc. reflexivity.
  - exists l0. destruct tags as [|t tags]; [reflexivity|].
    cbn [length Nat.leb]. rewrite fold_count_tag, Nat.add_0_l.
    unfold owned. cbn [fst].
    destruct (match_count appname (t :: tags)) as [|[|k]]; reflexivity.
Qed.






(** The count alone decides, whatever the keys. *)
Lemma ownership_check_threshold c x w (tags : list Tag) :
  fst (rds_ListTagsForResource (RDSClient c) (arn_of c x) (ext w)) = inr tags ->
  fst (checkListTagsForResourceMessage rt c x w) =
  ((2 <=? match_count appname tags)%nat, None).
Proof.
  intros Hans. destruct (checkListTags_spec c x w) as [l E].
  rewrite E. cbn [fst]. rewrite Hans. reflexivity.
Qed.

(** ** Discovery by tags *)

Lemma collectByTags_spec (A : Type) c (wrap : A -> any)
  (tags_of : string -> string + list Tag) :
  (forall arn s, fst (rds_ListTagsForResource (RDSClient c) arn s) = tags_of arn) ->
  forall (l acc : list A) w,
  fst (collectByTags rt c wrap l acc w) =
  match first_error (fun x => tags_of (arn_of c (wrap x))) l with
  | Some e => inl e
  | None => inr (acc ++ filter (fun x => owned appname (tags_of (arn_of c (wrap x)))) l)
  end.
Proof.
  intros Hstable. induction l as [|x l IH]; intros acc w; simpl.
  - rewrite app_nil_r. reflexivity.
  - unfold bind at 1.
    destruct (checkListTags_spec c (wrap x) w) as [lg E]. rewrite E.
    rewrite Hstable.
    destruct (tags_of (arn_of c (wrap x))) as [msg|tags] eqn:Et; cbn [owned fst snd].
    + reflexivity.
    + rewrite IH.
      destruct (first_error _ l); [reflexivity|].
      destruct (2 <=? match_count appname tags)%nat; simpl.
      * rewrite <- app_assoc. reflexivity.
      * reflexivity.
Qed.

(** C3: when the describe call returns [instances] (or [snapshots]) and
    the tag listing of each resource has a fixed answer, discovery
    returns the error of the first resource whose tag listing fails, with
    no list, and otherwise exactly the owned resources in their original
    order. *)
Theorem discovery_returns_owned_in_order c w (tags_of : string -> string + list Tag)
  (instances : list DBInstance) (snapshots : list DBSnapshot) :
  (forall arn s, fst (rds_ListTagsForResource (RDSClient c) arn s) = tags_of arn) ->
  fst (rds_DescribeDBInstances (RDSClient c)
         {| dim_DBInstanceIdentifier := None |} (ext w)) = inr instances ->
  fst (rds_DescribeDBSnapshots (RDSClient c)
         {| dsm_DBInstanceIdentifier := None; dsm_DBSnapshotIdentifier := None |}
         (ext w)) = inr snapshots ->
  fst (DescribeDBInstancesByTags rt c w) =
    match first_error (fun i => tags_of (arn_of c (DBInstanceVal i))) instances with
    | Some e => inl e
    | None =>
        inr (filter (fun i => owned appname (tags_of (arn_of c (DBInstanceVal i))))
               instances)
    end
  /\
  fst (DescribeDBSnapshotsByTags rt c w) =
    match first_error (fun s => tags_of (arn_of c (DBSnapshotVal s))) snapshots with
    | Some e => inl e
    | None =>
        inr (filter (fun s => owned appname (tags_of (arn_of c (DBSnapshotVal s))))
               snapshots)
    end.
Proof.
  intros Hstable Hi Hs. split.
  - unfold DescribeDBInstancesByTags, describeDBInstances. run.
    destruct (rds_DescribeDBInstances _ _ _) as [r s'].
    cbn [fst] in Hi. subst r. cbn [fst snd].
    rewrite (@collectByTags_spec _ c DBInstanceVal tags_of Hstable). reflexivity.
  - unfold DescribeDBSnapshotsByTags, describeDBSnapshots. run.
    destruct (rds_DescribeDBSnapshots _ _ _) as [r s'].
    cbn [fst] in Hs. subst r. cbn [fst snd].
    rewrite (@collectByTags_spec _ c DBSnapshotVal tags_of Hstable). reflexivity.
Qed.

(** A failed describe call is returned as it is. *)
Lemma discovery_describe_error c w (msg : string) :
  fst (rds_DescribeDBInstances (RDSClient c)
         {| dim_DBInstanceIdentifier := None |} (ext w)) = inl msg ->
  fst (DescribeDBInstancesByTags rt c w) = inl (ExternalError msg).
Proof.
  intros Hi. unfold DescribeDBInstancesByTags, describeDBInstances. run.
  destruct (rds_DescribeDBInstances _ _ _) as [r s'].
  cbn [fst] in Hi. subst r. reflexivity.
Qed.

(** ** The latest snapshot *)

Lemma keepAvailable_spec (acc : list DBSnapshot) (s : DBSnapshot) w :
  exists lg,
    keepAvailable acc s w =
    (acc ++ (if is_available s then [s] else []),
     {| ext := ext w; calls := calls w; logs := logs w ++ lg |}).
Proof.
  unfold keepAvailable, is_available.
  destruct (Status s =? "available"); cbn [negb]; run.
  - exists []. rewrite app_nil_r. destruct w; reflexivity.
  - eexists. rewrite app_nil_r. reflexivity.
Qed.

Lemma range_keepAvailable (resp acc : list DBSnapshot) w :
  exists lg,
    range (@keepAvailable St) resp acc w =
    (acc ++ filter is_available resp,
     {| ext := ext w; calls := calls w; logs := logs w ++ lg |}).
Proof.
  revert acc w. induction resp as [|s resp IH]; intros acc w; simpl.
  - exists []. rewrite !app_nil_r. destruct w; reflexivity.
  - unfold bind. destruct (keepAvailable_spec acc s w) as [lg1 E1]. rewrite E1.
    match goal with |- context [range _ resp ?a ?w0] =>
      destruct (IH a w0) as [lg E]; rewrite E end.
    cbn [ext calls logs]. exists (lg1 ++ lg).
    rewrite <- !app_assoc. destruct (is_available s); reflexivity.
Qed.

(** C4: when the describe call returns [resp], the latest snapshot is the
    last element of the sublist of [resp] whose status is "available", and
    the SnapshotNotFound error when that sublist is empty. *)
Theorem latest_snapshot_is_last_available c (dbIdentifier : string) w
  (resp : list DBSnapshot) :
  fst (rds_DescribeDBSnapshots (RDSClient c)
         {| dsm_DBInstanceIdentifier := Some dbIdentifier;
            dsm_DBSnapshotIdentifier := None |} (ext w)) = inr resp ->
  (filter is_available resp = [] ->
   fst (DescribeLatestDBSnapshot c dbIdentifier w) = inl ErrSnapshotNotFound) /\
  (forall l s, filter is_available resp = l ++ [s] ->
   fst (DescribeLatestDBSnapshot c dbIdentifier w) = inr s).
Proof.
  intros Hs.
  assert (fst (DescribeLatestDBSnapshot c dbIdentifier w) =
          if (length (filter is_available resp) <? 1)%nat then inl ErrSnapshotNotFound
          else match last_index (filter is_available resp) with
               | Some s => inr s
               | None => inl ErrSnapshotNotFound
               end) as E.
  { unfold DescribeLatestDBSnapshot, describeDBSnapshots.
    unfold bind at 1. unfold bind at 1. unfold invoke at 1.
    destruct (rds_DescribeDBSnapshots _ _ _) as [r s'].
    cbn [fst] in Hs. subst r. unfold ret at 1. unfold bind at 1.
    match goal with |- context [range _ resp [] ?w0] =>
      destruct (range_keepAvailable resp [] w0) as [lg E]; rewrite E end.
    cbn [app].
    destruct (length (filter is_available resp) <? 1)%nat; [reflexivity|].
    destruct (last_index (filter is_available resp)); reflexivity. }
  rewrite E. split.
  - intros ->. reflexivity.
  - intros l s ->. rewrite length_app. simpl length.
    replace (length l + 1 <? 1)%nat with false
      by (symmetry; apply Nat.ltb_ge; lia).
    rewrite last_index_app. reflexivity.
Qed.

(** ** Tags at creation *)

Lemma getSpecifyTags_spec w :
  exists t s',
    getSpecifyTags rt w =
    ([{| Key := "rt_name"; Value := appname |}; {| Key := "rt_time"; Value := t |}],
     {| ext := s'; calls := calls w; logs := logs w |}).
Proof.
  unfold getSpecifyTags. run.
  destruct (GetFormatedTime rt (ext w)) as [t s']. exists t, s'. reflexivity.
Qed.

(** The tags the tool attaches pass its own ownership check. *)
Lemma ownership_pair_counts (tags : list Tag) :
  ownership_pair appname tags -> match_count appname tags = 2.
Proof.
  intros (v & t & -> & Hv). unfold match_count, is_name_tag, is_time_tag. simpl.
  rewrite Hv. reflexivity.
Qed.


(** ** Bulk delete *)

Lemma DeleteDBSnapshot_error c (id : string) w :
  forall e, fst (DeleteDBSnapshot c id w) = inl e -> exists msg, e = ExternalError msg.
Proof.
  unfold DeleteDBSnapshot. run.
  destruct (rds_DeleteDBSnapshot _ _ _) as [[msg|s] s']; cbn [fst]; intros e H.
  - exists msg. congruence.
  - discriminate.
Qed.

Lemma DeleteDBInstance_error c (id : string) w :
  forall e, fst (DeleteDBInstance c id w) = inl e -> exists msg, e = ExternalError msg.
Proof.
  unfold DeleteDBInstance. run.
  destruct (rds_DeleteDBInstance _ _ _) as [[msg|s] s']; cbn [fst]; intros e H.
  - exists msg. congruence.
  - discriminate.
Qed.

Lemma deleteSnapshots_error c (l : list DBSnapshot) (i : nat) w :
  forall e, fst (deleteSnapshots c l i w) = Some e -> exists msg, e = ExternalError msg.
Proof.
  revert i w. induction l as [|item l IH]; intros i w e; simpl.
  - discriminate.
  - unfold bind at 1.
    pose proof (@DeleteDBSnapshot_error c (DBSnapshotIdentifier item) w) as Hd.
    destruct (DeleteDBSnapshot c (DBSnapshotIdentifier item) w) as [[err|resp] w'].
    + cbn [fst ret]. intros H. apply Hd. cbn [fst]. congruence.
    + unfold bind at 1. run. apply IH.
Qed.

Lemma deleteInstances_error c (l : list DBInstance) (i : nat) w :
  forall e, fst (deleteInstances c l i w) = Some e -> exists msg, e = ExternalError msg.
Proof.
  revert i w. induction l as [|item l IH]; intros i w e; simpl.
  - discriminate.
  - unfold bind at 1.
    pose proof (@DeleteDBInstance_error c (DBInstanceIdentifier item) w) as Hd.
    destruct (DeleteDBInstance c (DBInstanceIdentifier item) w) as [[err|resp] w'].
    + cbn [fst ret]. intros H. apply Hd. cbn [fst]. congruence.
    + unfold bind at 1. run. apply IH.
Qed.

(** C10: given a value that is neither a list of snapshots nor a list of
    instances, the bulk delete writes one error line to the log, issues no
    call and returns nil; and whatever it is given, the error it returns
    is never [ErrRdsTypesNotFound]. *)
Theorem DeleteDBResources_unknown_type_returns_nil c (x y : any) w w' :
  is_resource_list x = false ->
  DeleteDBResources c x w =
    (None,
     {| ext := ext w; calls := calls w;
        logs := logs w ++ [{| lvl := LError; fmt := "%s";
                              args := [AStr (Error ErrRdsTypesNotFound)] |}] |})
  /\ fst (DeleteDBResources c y w') <> Some ErrRdsTypesNotFound.
Proof.
  intros Hx. split.
  - destruct x; try discriminate; reflexivity.
  - intros H. destruct y; try (cbn in H; discriminate).
    + apply deleteSnapshots_error in H. destruct H; discriminate.
    + apply deleteInstances_error in H. destruct H; discriminate.
Qed.

(** ** The result exporter *)

Lemma convertAssign_storable (lastcols : list driver_value) :
  forallb storable lastcols = true ->
  forall dest, length dest = length lastcols ->
  convertAssign lastcols dest = (map to_raw lastcols, None).
Proof.
  induction lastcols as [|v l IH]; intros Hs dest Hlen.
  - destruct dest; [reflexivity | discriminate].
  - destruct dest as [|d dest]; [discriminate|].
    simpl in Hs. apply andb_true_iff in Hs. destruct Hs as [Hv Hs].
    simpl in Hlen. injection Hlen as Hlen.
    simpl. destruct v; try discriminate; rewrite (IH Hs dest Hlen); reflexivity.
Qed.

Lemma Scan_storable (lastcols : list driver_value) (dest : list (option string)) :
  length dest = length lastcols ->
  forallb storable lastcols = true ->
  Scan lastcols dest = (map to_raw lastcols, None).
Proof.
  intros Hlen Hs. unfold Scan. rewrite Hlen, Nat.eqb_refl.
  apply convertAssign_storable; assumption.
Qed.

Lemma render_to_raw (v : driver_value) : storable v = true -> render (to_raw v) = text_of v.
Proof. destruct v; try discriminate; reflexivity. Qed.

(** When every value of every row can be stored, the data rows are the
    texts of the values. *)
Lemma scan_rows_storable (n : nat) (rows : list (list driver_value)) :
  Forall (fun row => length row = n /\ forallb storable row = true) rows ->
  forall rawResult, length rawResult = n ->
  scan_rows rows rawResult = map (map text_of) rows.
Proof.
  induction 1 as [|row rows [Hlen Hs] _ IH]; intros rawResult Hr; simpl.
  - reflexivity.
  - rewrite Scan_storable by congruence. cbn [fst].
    rewrite IH by (rewrite length_map; exact Hlen).
    f_equal. rewrite map_map. apply map_ext_in. intros v Hv.
    apply render_to_raw. rewrite forallb_forall in Hs. auto.
Qed.

Lemma writeRow_spec (rawResult : list (option string)) (writer : list (list string))
  (lastcols : list driver_value) w :
  exists lg,
    writeRow (rawResult, writer) lastcols w =
    ((fst (Scan lastcols rawResult),
      writer ++ [map render (fst (Scan lastcols rawResult))]),
     {| ext := ext w; calls := calls w; logs := logs w ++ lg |}).
Proof.
  unfold writeRow. destruct (Scan lastcols rawResult) as [raw' [msg|]]; run.
  - eexists. reflexivity.
  - exists []. rewrite app_nil_r. destruct w; reflexivity.
Qed.

Lemma range_writeRow (rows : list (list driver_value)) :
  forall (rawResult : list (option string)) (writer : list (list string)) w,
  exists raw' lg,
    range (@writeRow St) rows (rawResult, writer) w =
    ((raw', writer ++ scan_rows rows rawResult),
     {| ext := ext w; calls := calls w; logs := logs w ++ lg |}).
Proof.
  induction rows as [|row rows IH]; intros rawResult writer w; cbn [range scan_rows].
  - exists rawResult, []. unfold ret. rewrite !app_nil_r. destruct w; reflexivity.
  - unfold bind. destruct (writeRow_spec rawResult writer row w) as [lg1 E1].
    rewrite E1.
    match goal with |- context [range _ rows (?a, ?b) ?w0] =>
      destruct (IH a b w0) as (raw' & lg & E); rewrite E end.
    cbn [ext calls logs]. exists raw', (lg1 ++ lg).
    rewrite <- !app_assoc. reflexivity.
Qed.

(** What [writeCSVFile] does, in full: the result is [true] as soon as the
    column names are known; the file calls depend on whether the file
    opened, and the records handed to the file are the optional marker
    line, the header and the data rows. *)
Lemma writeCSVFile_spec (args : writeCSVFileArgs) w (cols : list string) :
  Columns (wa_Rows args) = inr cols ->
  let path := path_Join rt (Path args)
                (if wa_Bom args then ("utf8-bom_" ++ FileName args)%string
                 else FileName args) in
  let records :=
    (if wa_Bom args
     then [[(BOM ++ "# character encoding : utf-8 with BOM")%string]] else [])
    ++ [cols] ++ scan_rows (pending (wa_Rows args)) (repeat None (length cols)) in
  exists l lg s',
    writeCSVFile rt args w =
      (true, {| ext := s'; calls := calls w ++ l; logs := logs w ++ lg |}) /\
    if succeeded (fst (os_OpenFile rt path (ext w))) then
      exists ok1 ok2 ok3,
        l = [(COpenFile path, true); (CTruncate, ok1);
             (CWriteFile records, ok2); (CFileClose, ok3)]
    else l = [(COpenFile path, false)].
Proof.
  intros Hcols path records. unfold writeCSVFile. rewrite Hcols.
  fold path. unfold bind at 1. unfold invoke at 1.
  destruct (os_OpenFile rt path (ext w)) as [[msg|[]] s1]; cbn [fst succeeded].
  - unfold bind at 1. unfold ret at 1. unfold bind at 1.
    match goal with |- context [range _ ?rows (?a, ?b) ?w0] =>
      destruct (range_writeRow rows a b w0) as (raw' & lg & E); rewrite E end.
    run. do 3 eexists. split; reflexivity.
  - unfold bind at 1. unfold invoke at 1. cbn [ext calls logs].
    destruct (file_Truncate rt s1) as [r1 s2]. unfold bind at 1.
    match goal with |- context [range _ ?rows (?a, ?b) ?w0] =>
      destruct (range_writeRow rows a b w0) as (raw' & lg & E); rewrite E end.
    run.
    destruct (file_Write rt _ s2) as [r2 s3]. cbn [ext calls logs fst snd].
    destruct (file_Close rt s3) as [r3 s4]. cbn [ext calls logs fst snd].
    do 3 eexists. split.
    + rewrite <- !app_assoc. reflexivity.
    + exists (succeeded r1), (succeeded r2), (succeeded r3).
      unfold records. destruct (wa_Bom args); reflexivity.
Qed.

(** C7: when the file opens and every value of the result set can be
    stored by the scan, the records written to the file are the optional
    marker line, the header, and one record per row in which SQL NULL is
    the text "null" and any other value is its own bytes. *)
Theorem csv_rows_render_null (args : writeCSVFileArgs) w (cols : list string) :
  Columns (wa_Rows args) = inr cols ->
  Forall (fun row => length row = length cols /\ forallb storable row = true)
    (pending (wa_Rows args)) ->
  (forall path, succeeded (fst (os_OpenFile rt path (ext w))) = true) ->
  exists path ok1 ok2 ok3,
    issued w (snd (writeCSVFile rt args w)) =
      [(COpenFile path, true); (CTruncate, ok1);
       (CWriteFile
          ((if wa_Bom args
            then [[(BOM ++ "# character encoding : utf-8 with BOM")%string]] else [])
           ++ [cols] ++ map (map text_of) (pending (wa_Rows args))), ok2);
       (CFileClose, ok3)]
    /\ text_of DNull = "null"%string /\ text_of DNull <> ""%string
    /\ (forall b, text_of (DBytes b) = b).
Proof.
  intros Hcols Hrows Hopen.
  destruct (@writeCSVFile_spec args w cols Hcols) as (l & lg & s' & E & Hl).
  rewrite Hopen in Hl. destruct Hl as (ok1 & ok2 & ok3 & ->).
  rewrite (@scan_rows_storable (length cols)) in E;
    [|exact Hrows|apply repeat_length].
  rewrite E. do 4 eexists. split; [apply issued_app; reflexivity|].
  repeat split. discriminate.
Qed.

(** Whatever happens to the file, the writer reports success. *)
Lemma writeCSVFile_reports_success (args : writeCSVFileArgs) w (cols : list string) :
  Columns (wa_Rows args) = inr cols ->
  fst (writeCSVFile rt args w) = true.
Proof.
  intros Hcols.
  destruct (@writeCSVFile_spec args w cols Hcols) as (l & lg & s' & E & _).
  rewrite E. reflexivity.
Qed.

(** The only failure reported is that of [Columns()]. *)
Lemma writeCSVFile_reports_failure (args : writeCSVFileArgs) w (msg : string) :
  Columns (wa_Rows args) = inl msg ->
  fst (writeCSVFile rt args w) = false.
Proof. intros Hcols. unfold writeCSVFile. rewrite Hcols. reflexivity. Qed.

(** ** The query executor *)

Lemma getDbOpenValues_spec c (args : ExecuteSQLArgs) w :
  exists lg,
    getDbOpenValues c args w =
    (match first_match (ToLower (Engine args)) with
     | Some d => (d, if d =? "mysql" then mysql_dsn c (ea_Endpoint args) else ""%string)
     | None => (""%string, ""%string)
     end,
     {| ext := ext w; calls := calls w; logs := logs w ++ lg |}).
Proof.
  unfold getDbOpenValues, first_match, drivers, mysql_dsn. cbn [find]. run.
  destruct (Contains (ToLower (Engine args)) "mysql");
    [|destruct (Contains (ToLower (Engine args)) "oracle");
      [|destruct (Contains (ToLower (Engine args)) "sqlserver");
        [|destruct (Contains (ToLower (Engine args)) "postgres")]]];
    cbn [fst snd ext calls logs String.eqb Ascii.eqb Bool.eqb];
    eexists; rewrite <- ?app_assoc; reflexivity.
Qed.

Lemma first_match_driver (engine d : string) :
  first_match engine = Some d -> In d drivers /\ d <> ""%string.
Proof.
  unfold first_match. intros H. apply find_some in H. destruct H as [H _].
  split; [exact H|]. unfold drivers in H. simpl in H.
  intuition (subst; discriminate).
Qed.

(** The cases of the derivation one by one. *)
Lemma driver_cases c (args : ExecuteSQLArgs) w :
  let engine := ToLower (Engine args) in
  let r := fst (getDbOpenValues c args w) in
  (Contains engine "mysql" = true ->
   r = ("mysql"%string, mysql_dsn c (ea_Endpoint args))) /\
  (Contains engine "mysql" = false -> Contains engine "oracle" = true ->
   r = ("oracle"%string, ""%string)) /\
  (Contains engine "mysql" = false -> Contains engine "oracle" = false ->
   Contains engine "sqlserver" = true ->
   r = ("sqlserver"%string, ""%string)) /\
  (Contains engine "mysql" = false -> Contains engine "oracle" = false ->
   Contains engine "sqlserver" = false -> Contains engine "postgres" = true ->
   r = ("postgres"%string, ""%string)) /\
  (Contains engine "mysql" = false -> Contains engine "oracle" = false ->
   Contains engine "sqlserver" = false -> Contains engine "postgres" = false ->
   r = (""%string, ""%string)).
Proof.
  intros engine r. destruct (getDbOpenValues_spec c args w) as [lg E].
  unfold r. rewrite E. cbn [fst]. unfold first_match, drivers. cbn [find].
  fold engine.
  repeat split; intros;
    repeat match goal with H : Contains engine _ = _ |- _ => rewrite H; clear H end;
    reflexivity.
Qed.









(** The batch is run front to back: the timings and the error of a
    prefix are those of the whole batch when the prefix fails, and the
    rest continues from them when it does not. *)
Lemma runQueries_app c (pre post : list Query) :
  forall (times : list Z) w,
  runQueries rt c (pre ++ post) times w =
  match runQueries rt c pre times w with
  | ((ts, None), w') => runQueries rt c post ts w'
  | ((ts, Some e), w') => ((ts, Some e), w')
  end.
Proof.
  induction pre as [|value pre IH]; intros times w; cbn [app runQueries].
  - reflexivity.
  - run.
    destruct (time_Now rt (ext w)) as [s_time s1]. cbn [ext calls logs].
    destruct (db_Query rt (Sql value) s1) as [[msg|result] s2]; cbn [ext calls logs].
    + reflexivity.
    + destruct (time_Now rt s2) as [e_time s3]. cbn [ext calls logs].
      destruct (outputCSV rt c value result _) as [[] w3].
      apply IH.
Qed.

(** ** The status waiter *)

(** A goroutine that is blocked or has panicked does nothing more. *)
Lemma wait_step_stopped c (x : any) (wt : waiter) (ev : select_case) w :
  running wt = false -> wait_step c x wt ev w = (wt, w).
Proof. unfold wait_step. intros ->. reflexivity. Qed.

(** Once the ticker is stopped no describe call is issued: with the
    ticker stopped a turn of the loop issues no call at all. *)
Lemma wait_step_no_call_after_stop c (x : any) (wt : waiter) (ev : select_case) w :
  ticker_running wt = false ->
  calls (snd (wait_step c x wt ev w)) = calls w /\
  ticker_running (fst (wait_step c x wt ev w)) = false.
Proof.
  intros Hstop. unfold wait_step. rewrite Hstop.
  destruct (running wt); [|split; [reflexivity|exact Hstop]].
  destruct ev as [tick|out]; [split; [reflexivity|exact Hstop]|].
  destruct (timeout_pending wt); [|split; [reflexivity|exact Hstop]].
  unfold on_timeout.
  destruct (running (send false (timeout_read wt))) eqn:Hr; run.
  - split; reflexivity.
  - split; [reflexivity|].
    unfold send. destruct (receives (timeout_read wt)); exact Hstop.
Qed.

Lemma range_wait_step_no_call_after_stop c (x : any) (ready : list select_case) :
  forall (wt : waiter) w,
  ticker_running wt = false ->
  calls (snd (range (wait_step c x) ready wt w)) = calls w.
Proof.
  induction ready as [|ev ready IH]; intros wt w Hstop; cbn [range].
  - reflexivity.
  - unfold bind.
    pose proof (@wait_step_no_call_after_stop c x wt ev w Hstop) as [Hc Ht].
    destruct (wait_step c x wt ev w) as [wt' w']. cbn [fst snd] in Hc, Ht.
    rewrite (IH wt' w' Ht). exact Hc.
Qed.

(** The caller never receives more values than it asks for. *)
Lemma send_received (v : bool) (wt : waiter) :
  length (received (send v wt)) + receives (send v wt)
  = length (received wt) + receives wt.
Proof.
  unfold send. destruct (receives wt); cbn [received receives]; [lia|].
  rewrite length_app. simpl. lia.
Qed.

(** After a send that found its receiver the goroutine is still in its
    loop, and the timeout is still armed. *)
Lemma send_keeps_selecting (v : bool) (wt : waiter) :
  running wt = true -> (0 < receives wt)%nat ->
  running (send v wt) = true /\
  timeout_pending (send v wt) = timeout_pending wt /\
  received (send v wt) = received wt ++ [v].
Proof.
  unfold send, running. intros Hr Hn.
  destruct (receives wt); [lia|]. cbn [g timeout_pending received]. auto.
Qed.

(** The tick on which the instance is described as available: [true] is
    sent, the ticker is stopped, and the goroutine goes on selecting with
    the timeout armed as before. *)
Lemma on_tick_available c (rdstype i : DBInstance) (tick : Z) (wt : waiter) w :
  fst (DescribeDBInstance c (DBInstanceIdentifier rdstype)
         (snd (@Debugf St "tick: %s" [ATime tick] w))) = inr i ->
  DBInstanceStatus i = "available"%string ->
  running wt = true -> (0 < receives wt)%nat ->
  let wt' := fst (on_tick c (DBInstancePtr rdstype) tick wt w) in
  received wt' = received wt ++ [true] /\
  ticker_running wt' = false /\
  running wt' = true /\
  timeout_pending wt' = timeout_pending wt.
Proof.
  intros Hd Hs Hr Hn wt'.
  destruct (send_keeps_selecting true wt Hr Hn) as (Hr' & Ht' & Hrec').
  assert (wt' = ticker_Stop (send true wt)) as ->.
  { unfold wt', on_tick. unfold bind at 1.
    destruct (Debugf "tick: %s" [ATime tick] w) as [[] w0]. cbn [snd] in Hd.
    unfold bind at 1. destruct (DescribeDBInstance c _ w0) as [[e|i'] w1];
      cbn [fst] in Hd; [discriminate|]. injection Hd as ->.
    unfold bind at 1. unfold Infof at 1, logf at 1.
    unfold check_status. rewrite Hs. cbn [String.eqb Ascii.eqb Bool.eqb].
    rewrite Hr'. reflexivity. }
  unfold running in *. cbn [ticker_Stop received ticker_running g timeout_pending].
  auto.
Qed.

(** With the timeout still armed and a receiver at the channel, the
    timeout case sends [false], whatever was sent before. *)
Lemma on_timeout_sends_false (out : Z) (wt : waiter) w :
  running wt = true -> (0 < receives wt)%nat ->
  received (fst (@on_timeout St out wt w)) = received wt ++ [false].
Proof.
  intros Hr Hn. unfold on_timeout.
  assert (running (timeout_read wt) = true) as Hr1 by exact Hr.
  assert (0 < receives (timeout_read wt))%nat as Hn1 by exact Hn.
  destruct (send_keeps_selecting false (timeout_read wt) Hr1 Hn1) as (Hr' & _ & Hrec').
  rewrite Hr'. run. exact Hrec'.
Qed.

(** The tick on which the describe call fails: [false] is sent and the
    goroutine panics. *)
Lemma on_tick_describe_error c (rdstype : DBInstance) (e : error) (tick : Z)
  (wt : waiter) w :
  fst (DescribeDBInstance c (DBInstanceIdentifier rdstype)
         (snd (@Debugf St "tick: %s" [ATime tick] w))) = inl e ->
  running wt = true -> (0 < receives wt)%nat ->
  let wt' := fst (on_tick c (DBInstancePtr rdstype) tick wt w) in
  received wt' = received wt ++ [false] /\ g wt' = Panicked.
Proof.
  intros Hd Hr Hn wt'.
  destruct (send_keeps_selecting false wt Hr Hn) as (Hr' & _ & Hrec').
  assert (wt' = panic (ticker_Stop (send false wt))) as ->.
  { unfold wt', on_tick. unfold bind at 1.
    destruct (Debugf "tick: %s" [ATime tick] w) as [[] w0]. cbn [snd] in Hd.
    unfold bind at 1. destruct (DescribeDBInstance c _ w0) as [[e'|i'] w1];
      cbn [fst] in Hd; [|discriminate].
    unfold ret, describe_failed. cbn [fst]. rewrite Hr'. reflexivity. }
  cbn [panic ticker_Stop received g]. auto.
Qed.

(** ** Describing one resource *)

Lemma last_index_rev {A : Type} (l : list A) :
  last_index l = match rev l with [] => None | x :: _ => Some x end.
Proof.
  destruct (rev l) as [|x r] eqn:E.
  - apply (f_equal (@rev A)) in E. rewrite rev_involutive in E. subst l. reflexivity.
  - apply (f_equal (@rev A)) in E. rewrite rev_involutive in E. subst l.
    cbn [rev]. apply last_index_app.
Qed.

(** [DescribeDBInstance] issues one describe call filtered on the
    identifier; a provider error comes back as it is, an empty answer is
    [ErrDBInstancetNotFound], and of several instances the last one is
    returned. *)
Theorem DescribeDBInstance_returns_last c (dbIdentifier : string) w :
  let message := {| dim_DBInstanceIdentifier := Some dbIdentifier |} in
  let answer := fst (rds_DescribeDBInstances (RDSClient c) message (ext w)) in
  issued w (snd (DescribeDBInstance c dbIdentifier w))
    = [(CDescribeDBInstances message, succeeded answer)] /\
  fst (DescribeDBInstance c dbIdentifier w) =
    match answer with
    | inl msg => inl (ExternalError msg)
    | inr resp =>
        match rev resp with
        | [] => inl ErrDBInstancetNotFound
        | i :: _ => inr i
        end
    end.
Proof.
  intros message answer.
  assert (exists lg,
    DescribeDBInstance c dbIdentifier w =
    (match answer with
     | inl msg => inl (ExternalError msg)
     | inr resp =>
         match rev resp with
         | [] => inl ErrDBInstancetNotFound
         | i :: _ => inr i
         end
     end,
     {| ext := snd (rds_DescribeDBInstances (RDSClient c) message (ext w));
        calls := calls w ++ [(CDescribeDBInstances message, succeeded answer)];
        logs := logs w ++ lg |})) as [lg E].
  { unfold answer, DescribeDBInstance, describeDBInstances. fold message. run.
    destruct (rds_DescribeDBInstances (RDSClient c) message (ext w)) as [[msg|resp] s'];
      cbn [fst snd succeeded].
    - eexists. reflexivity.
    - rewrite last_index_rev.
      destruct resp as [|i0 resp]; cbn [length Nat.ltb Nat.leb].
      + eexists. reflexivity.
      + destruct (rev (i0 :: resp)) as [|x r] eqn:Er.
        * apply (f_equal (@length _)) in Er. rewrite length_rev in Er. discriminate.
        * exists []. rewrite app_nil_r. reflexivity. }
  rewrite E. split; [apply issued_app; reflexivity | reflexivity].
Qed.

(** [DescribeDBSnapshot]: the same for one snapshot, with
    [ErrSnapshotNotFound]. *)
Theorem DescribeDBSnapshot_returns_last c (snapshotIdentifier : string) w :
  let message := {| dsm_DBInstanceIdentifier := None;
                    dsm_DBSnapshotIdentifier := Some snapshotIdentifier |} in
  let answer := fst (rds_DescribeDBSnapshots (RDSClient c) message (ext w)) in
  issued w (snd (DescribeDBSnapshot c snapshotIdentifier w))
    = [(CDescribeDBSnapshots message, succeeded answer)] /\
  fst (DescribeDBSnapshot c snapshotIdentifier w) =
    match answer with
    | inl msg => inl (ExternalError msg)
    | inr resp =>
        match rev resp with
        | [] => inl ErrSnapshotNotFound
        | s :: _ => inr s
        end
    end.
Proof.
  intros message answer.
  assert (exists lg,
    DescribeDBSnapshot c snapshotIdentifier w =
    (match answer with
     | inl msg => inl (ExternalError msg)
     | inr resp =>
         match rev resp with
         | [] => inl ErrSnapshotNotFound
         | s :: _ => inr s
         end
     end,
     {| ext := snd (rds_DescribeDBSnapshots (RDSClient c) message (ext w));
        calls := calls w ++ [(CDescribeDBSnapshots message, succeeded answer)];
        logs := logs w ++ lg |})) as [lg E].
  { unfold answer, DescribeDBSnapshot, describeDBSnapshots. fold message. run.
    destruct (rds_DescribeDBSnapshots (RDSClient c) message (ext w)) as [[msg|resp] s'];
      cbn [fst snd succeeded].
    - eexists. reflexivity.
    - rewrite last_index_rev.
      destruct resp as [|i0 resp]; cbn [length Nat.ltb Nat.leb].
      + eexists. reflexivity.
      + destruct (rev (i0 :: resp)) as [|x r] eqn:Er.
        * apply (f_equal (@length _)) in Er. rewrite length_rev in Er. discriminate.
        * exists []. rewrite app_nil_r. reflexivity. }
  rewrite E. split; [apply issued_app; reflexivity | reflexivity].
Qed.

(** ** Resource names *)

Lemma string_app_inv_head (p a b : string) : (p ++ a = p ++ b)%string -> a = b.
Proof.
  induction p as [|ch p IH]; cbn [String.append]; intros H; [exact H|].
  injection H as H. exact (IH H).
Qed.

Lemma prefix_iff (p s : string) :
  String.prefix p s = true <-> exists suffix, s = (p ++ suffix)%string.
Proof.
  revert s. induction p as [|a p IH]; intros s.
  - split; [intros _; exists s; reflexivity | intros _; destruct s; reflexivity].
  - destruct s as [|b s]; simpl.
    + split; [discriminate | intros [suffix H]; discriminate].
    + destruct (ascii_dec a b) as [->|Hab].
      * rewrite IH. split; intros [suffix H]; exists suffix; congruence.
      * split; [discriminate | intros [suffix H]; congruence].
Qed.

(** The ARN of an instance is never that of a snapshot, and two
    instances (two snapshots) with the same ARN have the same identifier. *)
Theorem getARNString_separates c (i i' : DBInstance) (s s' : DBSnapshot) w w' :
  fst (getARNString c (DBInstanceVal i) w) <> fst (getARNString c (DBSnapshotVal s) w') /\
  (fst (getARNString c (DBInstanceVal i) w) = fst (getARNString c (DBInstanceVal i') w') ->
   DBInstanceIdentifier i = DBInstanceIdentifier i') /\
  (fst (getARNString c (DBSnapshotVal s) w) = fst (getARNString c (DBSnapshotVal s') w') ->
   DBSnapshotIdentifier s = DBSnapshotIdentifier s').
Proof.
  destruct (getARNString_spec c (DBInstanceVal i) w) as [l1 E1].
  destruct (getARNString_spec c (DBInstanceVal i') w') as [l2 E2].
  destruct (getARNString_spec c (DBSnapshotVal s) w') as [l3 E3].
  destruct (getARNString_spec c (DBSnapshotVal s) w) as [l4 E4].
  destruct (getARNString_spec c (DBSnapshotVal s') w') as [l5 E5].
  rewrite E1, E2, E3, E4, E5. cbn [fst arn_of]. repeat split.
  - intros H. apply string_app_inv_head in H. discriminate.
  - intros H. apply string_app_inv_head in H.
    apply (string_app_inv_head "db:") in H. exact H.
  - intros H. apply string_app_inv_head in H.
    apply (string_app_inv_head "snapshot:") in H. exact H.
Qed.

(** For a value that is neither an instance nor a snapshot the ARN is
    empty and the type error is logged; the ownership check goes on and
    asks the gateway for the tags of the empty resource name. *)
Theorem checkListTags_of_unknown_type c (x : any) w :
  has_arn x = false ->
  (exists s' lg,
     getARNString c x w = (""%string, {| ext := s'; calls := calls w; logs := lg |}) /\
     In {| lvl := LError; fmt := "%s"; args := [AStr (Error ErrRdsARNsNotFound)] |} lg) /\
  issued w (snd (checkListTagsForResourceMessage rt c x w)) =
    [(CListTagsForResource "",
      succeeded (fst (rds_ListTagsForResource (RDSClient c) "" (ext w))))].
Proof.
  intros Hx. split.
  - destruct x; try discriminate; unfold getARNString; run;
      do 2 eexists; (split; [reflexivity|]);
      rewrite <- app_assoc; apply in_or_app; right; left; reflexivity.
  - destruct (checkListTags_spec c x w) as [l E]. rewrite E.
    assert (arn_of c x = ""%string) as -> by (destruct x; try discriminate; reflexivity).
    apply issued_app. reflexivity.
Qed.

(** ** What counts as a match *)

(** A tag adds one to the count exactly when its key is [rt_name] and its
    value is the application name followed by anything, or its key is
    [rt_time]; any other tag leaves the count as it is. *)
Theorem count_tag_counts (n : nat) (t : Tag) :
  (count_tag rt n t = n + 1 <->
   (Key t = "rt_name"%string /\ exists suffix, Value t = (appname ++ suffix)%string)
   \/ Key t = "rt_time"%string) /\
  (count_tag rt n t = n + 1 \/ count_tag rt n t = n).
Proof.
  rewrite count_tag_match. unfold is_name_tag, is_time_tag, HasPrefix.
  destruct (String.eqb_spec (Key t) "rt_name") as [En|En];
    destruct (String.eqb_spec (Key t) "rt_time") as [Et|Et];
    try (exfalso; congruence); cbn [andb].
  - destruct (String.prefix appname (Value t)) eqn:Hp.
    + split; [|left; lia]. split; [intros _|lia].
      left. split; [exact En|]. apply prefix_iff. exact Hp.
    + split; [|right; lia]. split; [lia|].
      intros [[_ Hs]|Ht]; [|congruence].
      apply prefix_iff in Hs. congruence.
  - split; [|left; lia]. split; [intros _; right; exact Et | lia].
  - split; [|right; lia]. split; [lia|]. intros [[H _]|H]; congruence.
Qed.

(** The tags the tool attaches at creation are recognised by its own
    ownership check: if the gateway lists for a resource the tags that
    [getSpecifyTags] built (at whatever time), the check answers true. *)
Theorem specify_tags_are_owned c (x : any) w (w0 : World St) :
  fst (rds_ListTagsForResource (RDSClient c) (arn_of c x) (ext w))
    = inr (fst (getSpecifyTags rt w0)) ->
  fst (checkListTagsForResourceMessage rt c x w) = (true, None).
Proof.
  intros Hans. rewrite (@ownership_check_threshold c x w _ Hans).
  destruct (getSpecifyTags_spec w0) as (t & s' & E). rewrite E. cbn [fst].
  rewrite (@ownership_pair_counts [{| Key := "rt_name"; Value := appname |};
                                   {| Key := "rt_time"; Value := t |}]).
  - reflexivity.
  - exists appname, t. split; [reflexivity | apply prefix_refl].
Qed.

(** ** The calls of a discovery run *)

Lemma collectByTags_calls (A : Type) c (wrap : A -> any)
  (tags_of : string -> string + list Tag) :
  (forall arn s, fst (rds_ListTagsForResource (RDSClient c) arn s) = tags_of arn) ->
  forall (l acc : list A) w,
  calls (snd (collectByTags rt c wrap l acc w)) =
  calls w ++ listings_until_error tags_of (map (fun x => arn_of c (wrap x)) l).
Proof.
  intros Hstable. induction l as [|x l IH]; intros acc w; cbn [collectByTags map listings_until_error].
  - rewrite app_nil_r. reflexivity.
  - unfold bind at 1.
    destruct (checkListTags_spec c (wrap x) w) as [lg E]. rewrite E.
    rewrite Hstable.
    destruct (tags_of (arn_of c (wrap x))) as [msg|tags]; cbn [owned succeeded].
    + reflexivity.
    + rewrite IH. cbn [calls]. rewrite <- app_assoc. reflexivity.
Qed.

(** A discovery run issues the describe call and then one tag listing
    per resource, in order, up to and including the first listing that
    fails and none after it; when the describe call fails it issues no
    tag listing at all. *)
Theorem discovery_calls c w (tags_of : string -> string + list Tag) :
  (forall arn s, fst (rds_ListTagsForResource (RDSClient c) arn s) = tags_of arn) ->
  let im := {| dim_DBInstanceIdentifier := None |} in
  let sm := {| dsm_DBInstanceIdentifier := None; dsm_DBSnapshotIdentifier := None |} in
  issued w (snd (DescribeDBInstancesByTags rt c w)) =
    match fst (rds_DescribeDBInstances (RDSClient c) im (ext w)) with
    | inl _ => [(CDescribeDBInstances im, false)]
    | inr instances =>
        (CDescribeDBInstances im, true)
        :: listings_until_error tags_of
             (map (fun i => arn_of c (DBInstanceVal i)) instances)
    end
  /\
  issued w (snd (DescribeDBSnapshotsByTags rt c w)) =
    match fst (rds_DescribeDBSnapshots (RDSClient c) sm (ext w)) with
    | inl _ => [(CDescribeDBSnapshots sm, false)]
    | inr snapshots =>
        (CDescribeDBSnapshots sm, true)
        :: listings_until_error tags_of
             (map (fun s => arn_of c (DBSnapshotVal s)) snapshots)
    end.
Proof.
  intros Hstable im sm. split.
  - apply issued_app.
    unfold DescribeDBInstancesByTags, describeDBInstances. fold im. run.
    destruct (rds_DescribeDBInstances (RDSClient c) im (ext w)) as [[msg|resp] s'];
      cbn [fst snd succeeded calls].
    + reflexivity.
    + rewrite (@collectByTags_calls _ c DBInstanceVal tags_of Hstable).
      cbn [calls]. rewrite <- app_assoc. reflexivity.
  - apply issued_app.
    unfold DescribeDBSnapshotsByTags, describeDBSnapshots. fold sm. run.
    destruct (rds_DescribeDBSnapshots (RDSClient c) sm (ext w)) as [[msg|resp] s'];
      cbn [fst snd succeeded calls].
    + reflexivity.
    + rewrite (@collectByTags_calls _ c DBSnapshotVal tags_of Hstable).
      cbn [calls]. rewrite <- app_assoc. reflexivity.
Qed.

(** ** The loops of the bulk delete *)

Lemma deleteSnapshots_spec c (l : list DBSnapshot) :
  forall (i : nat) w,
  exists err tr lg s',
    deleteSnapshots c l i w =
      (err, {| ext := s'; calls := calls w ++ tr; logs := logs w ++ lg |}) /\
    match err with
    | None =>
        tr = map (fun s => (CDeleteDBSnapshot (DBSnapshotIdentifier s), true)) l
    | Some e =>
        exists k s msg,
          nth_error l k = Some s /\ e = ExternalError msg /\
          tr = map (fun s => (CDeleteDBSnapshot (DBSnapshotIdentifier s), true))
                 (firstn k l)
               ++ [(CDeleteDBSnapshot (DBSnapshotIdentifier s), false)]
    end.
Proof.
  induction l as [|item l IH]; intros i w; cbn [deleteSnapshots].
  - exists None, [], [], (ext w). unfold ret. rewrite !app_nil_r. destruct w.
    split; reflexivity.
  - unfold bind at 1. unfold DeleteDBSnapshot. run.
    destruct (rds_DeleteDBSnapshot (RDSClient c) (DBSnapshotIdentifier item) (ext w))
      as [[msg|resp] s1]; cbn [succeeded ext calls logs].
    + exists (Some (ExternalError msg)). do 3 eexists. split; [reflexivity|].
      exists 0, item, msg. repeat split.
    + match goal with |- context [deleteSnapshots c l ?j ?w0] =>
        destruct (IH j w0) as (err & tr & lg & s' & E & Hspec); rewrite E end.
      cbn [ext calls logs]. exists err. do 3 eexists.
      split; [rewrite <- !app_assoc; reflexivity|].
      destruct err as [e|].
      * destruct Hspec as (k & s & msg & Hnth & He & Htr).
        exists (S k), s, msg. repeat split; [exact Hnth | exact He |].
        rewrite Htr. reflexivity.
      * rewrite Hspec. reflexivity.
Qed.

Lemma deleteInstances_spec c (l : list DBInstance) :
  forall (i : nat) w,
  exists err tr lg s',
    deleteInstances c l i w =
      (err, {| ext := s'; calls := calls w ++ tr; logs := logs w ++ lg |}) /\
    match err with
    | None =>
        tr = map (fun x => (CDeleteDBInstance
                              {| delm_DBInstanceIdentifier := DBInstanceIdentifier x;
                                 delm_SkipFinalSnapshot := true |}, true)) l
    | Some e =>
        exists k x msg,
          nth_error l k = Some x /\ e = ExternalError msg /\
          tr = map (fun x => (CDeleteDBInstance
                                {| delm_DBInstanceIdentifier := DBInstanceIdentifier x;
                                   delm_SkipFinalSnapshot := true |}, true))
                 (firstn k l)
               ++ [(CDeleteDBInstance
                      {| delm_DBInstanceIdentifier := DBInstanceIdentifier x;
                         delm_SkipFinalSnapshot := true |}, false)]
    end.
Proof.
  induction l as [|item l IH]; intros i w; cbn [deleteInstances].
  - exists None, [], [], (ext w). unfold ret. rewrite !app_nil_r. destruct w.
    split; reflexivity.
  - unfold bind at 1. unfold DeleteDBInstance. run.
    destruct (rds_DeleteDBInstance (RDSClient c) _ (ext w))
      as [[msg|resp] s1]; cbn [succeeded ext calls logs].
    + exists (Some (ExternalError msg)). do 3 eexists. split; [reflexivity|].
      exists 0, item, msg. repeat split.
    + match goal with |- context [deleteInstances c l ?j ?w0] =>
        destruct (IH j w0) as (err & tr & lg & s' & E & Hspec); rewrite E end.
      cbn [ext calls logs]. exists err. do 3 eexists.
      split; [rewrite <- !app_assoc; reflexivity|].
      destruct err as [e|].
      * destruct Hspec as (k & x & msg & Hnth & He & Htr).
        exists (S k), x, msg. repeat split; [exact Hnth | exact He |].
        rewrite Htr. reflexivity.
      * rewrite Hspec. reflexivity.
Qed.

(** The bulk delete of snapshots works through the list in order, one
    delete call per snapshot; the first failing call ends it, its error is
    returned and no later snapshot is touched; nil is returned only when
    every snapshot of the list has been deleted. *)
Theorem DeleteDBResources_snapshots_in_order c (l : list DBSnapshot) w :
  let r := DeleteDBResources c (DBSnapshotSlice l) w in
  match fst r with
  | None =>
      issued w (snd r) =
      map (fun s => (CDeleteDBSnapshot (DBSnapshotIdentifier s), true)) l
  | Some e =>
      exists k s msg,
        nth_error l k = Some s /\ e = ExternalError msg /\
        issued w (snd r) =
        map (fun s => (CDeleteDBSnapshot (DBSnapshotIdentifier s), true)) (firstn k l)
        ++ [(CDeleteDBSnapshot (DBSnapshotIdentifier s), false)]
  end.
Proof.
  intros r. unfold r, DeleteDBResources.
  destruct (deleteSnapshots_spec c l 0 w) as (err & tr & lg & s' & E & Hspec).
  rewrite E. cbn [fst snd].
  assert (issued w {| ext := s'; calls := calls w ++ tr; logs := logs w ++ lg |} = tr)
    as -> by (apply issued_app; reflexivity).
  exact Hspec.
Qed.

(** The bulk delete of instances: the same, and every delete call it
    issues skips the final snapshot. *)
Theorem DeleteDBResources_instances_in_order c (l : list DBInstance) w :
  let r := DeleteDBResources c (DBInstanceSlice l) w in
  let request x := CDeleteDBInstance
                     {| delm_DBInstanceIdentifier := DBInstanceIdentifier x;
                        delm_SkipFinalSnapshot := true |} in
  match fst r with
  | None => issued w (snd r) = map (fun x => (request x, true)) l
  | Some e =>
      exists k x msg,
        nth_error l k = Some x /\ e = ExternalError msg /\
        issued w (snd r) =
        map (fun x => (request x, true)) (firstn k l) ++ [(request x, false)]
  end.
Proof.
  intros r request. unfold r, DeleteDBResources.
  destruct (deleteInstances_spec c l 0 w) as (err & tr & lg & s' & E & Hspec).
  rewrite E. cbn [fst snd].
  assert (issued w {| ext := s'; calls := calls w ++ tr; logs := logs w ++ lg |} = tr)
    as -> by (apply issued_app; reflexivity).
  exact Hspec.
Qed.

(** ** The shape of the CSV file *)

Lemma convertAssign_length (lastcols : list driver_value) :
  forall dest, length (fst (convertAssign lastcols dest)) = length dest.
Proof.
  induction lastcols as [|v l IH]; intros dest; [reflexivity|].
  destruct dest as [|d dest]; [reflexivity|]. cbn [convertAssign].
  destruct v; [| |reflexivity];
    specialize (IH dest); destruct (convertAssign l dest) as [r e];
    cbn [fst length] in *; congruence.
Qed.

Lemma Scan_length (lastcols : list driver_value) (dest : list (option string)) :
  length (fst (Scan lastcols dest)) = length dest.
Proof.
  unfold Scan. destruct (length dest =? length lastcols)%nat; [|reflexivity].
  apply convertAssign_length.
Qed.

Lemma scan_rows_shape (rows : list (list driver_value)) :
  forall rawResult,
  length (scan_rows rows rawResult) = length rows /\
  Forall (fun record => length record = length rawResult) (scan_rows rows rawResult).
Proof.
  induction rows as [|row rows IH]; intros rawResult; cbn [scan_rows].
  - split; [reflexivity | constructor].
  - destruct (IH (fst (Scan row rawResult))) as [Hn Hw].
    rewrite Scan_length in Hw. split; [cbn [length]; congruence|].
    constructor; [rewrite length_map; apply Scan_length | exact Hw].
Qed.

(** Whatever the rows hold, and whether their scans succeed or not, the
    file gets the optional marker line, the header, and then exactly one
    record per row, each with as many fields as the header; with the
    marker the name of the file opened has the prefix [utf8-bom_]. *)
Theorem writeCSVFile_shape (args : writeCSVFileArgs) w (cols : list string) :
  Columns (wa_Rows args) = inr cols ->
  (forall path, succeeded (fst (os_OpenFile rt path (ext w))) = true) ->
  exists ok1 ok2 ok3 data,
    issued w (snd (writeCSVFile rt args w)) =
      [(COpenFile
          (path_Join rt (Path args)
             (if wa_Bom args then ("utf8-bom_" ++ FileName args)%string
              else FileName args)), true);
       (CTruncate, ok1);
       (CWriteFile
          ((if wa_Bom args
            then [[(BOM ++ "# character encoding : utf-8 with BOM")%string]] else [])
           ++ [cols] ++ data), ok2);
       (CFileClose, ok3)]
    /\ length data = length (pending (wa_Rows args))
    /\ Forall (fun record => length record = length cols) data.
Proof.
  intros Hcols Hopen.
  destruct (@writeCSVFile_spec args w cols Hcols) as (l & lg & s' & E & Hl).
  rewrite Hopen in Hl. destruct Hl as (ok1 & ok2 & ok3 & ->).
  rewrite E. do 4 eexists. split; [apply issued_app; reflexivity|].
  destruct (scan_rows_shape (pending (wa_Rows args)) (repeat None (length cols)))
    as [Hn Hw].
  rewrite repeat_length in Hw. split; assumption.
Qed.

Lemma convertAssign_failure (pre post : list driver_value) :
  forallb storable pre = true ->
  forall dest, length dest = length (pre ++ DUnsupported :: post) ->
  exists msg,
    convertAssign (pre ++ DUnsupported :: post) dest =
    (map to_raw pre ++ skipn (length pre) dest, Some msg).
Proof.
  induction pre as [|v pre IH]; intros Hs dest Hlen.
  - destruct dest as [|d dest]; [discriminate|]. eexists. reflexivity.
  - destruct dest as [|d dest]; [discriminate|].
    cbn [forallb] in Hs. apply andb_true_iff in Hs. destruct Hs as [Hv Hs].
    cbn [app length] in Hlen. injection Hlen as Hlen.
    destruct (IH Hs dest Hlen) as [msg E].
    exists msg. cbn [app convertAssign map length skipn].
    destruct v; try discriminate; rewrite E; reflexivity.
Qed.

(** A row whose scan fails is written all the same: an error is logged,
    the columns before the failing one hold the values of this row, and
    the failing column and those after it keep what the previous row left
    in the buffer. *)
Theorem writeRow_failed_scan (pre post : list driver_value)
  (rawResult : list (option string)) (writer : list (list string)) w :
  forallb storable pre = true ->
  length rawResult = length (pre ++ DUnsupported :: post) ->
  let rawResult' := map to_raw pre ++ skipn (length pre) rawResult in
  exists msg,
    writeRow (rawResult, writer) (pre ++ DUnsupported :: post) w =
    ((rawResult', writer ++ [map render rawResult']),
     {| ext := ext w; calls := calls w;
        logs := logs w ++ [{| lvl := LError; fmt := "%s"; args := [AStr msg] |}] |}).
Proof.
  intros Hs Hlen rawResult'.
  destruct (@convertAssign_failure pre post Hs rawResult Hlen) as [msg E].
  exists msg. unfold writeRow, Scan. rewrite Hlen, Nat.eqb_refl, E. reflexivity.
Qed.

(** ** The calls of the query executor *)

Lemma outputCSV_files c (value : Query) (result : Rows) w :
  exists l lg s',
    outputCSV rt c value result w =
      (tt, {| ext := s'; calls := calls w ++ l; logs := logs w ++ lg |}) /\
    Forall (fun e => is_file_call e = true) l /\
    (File (cmd_OutConfig c) = false -> l = []).
Proof.
  unfold outputCSV.
  destruct (File (cmd_OutConfig c) && _)%bool eqn:Hcond.
  - destruct (Columns result) as [msg|cols] eqn:Hcols.
    { simpl in Hcond. rewrite andb_false_r in Hcond. discriminate. }
    apply andb_true_iff in Hcond. destruct Hcond as [Hfile _].
    unfold bind at 1. unfold observe at 1.
    destruct (GetFormatedTime rt (ext w)) as [now s1].
    unfold bind at 1. unfold observe at 1. cbn [ext calls logs].
    destruct (GetHomeDir rt s1) as [home s2].
    unfold bind at 1.
    match goal with |- context [writeCSVFile rt ?a ?w0] =>
      destruct (@writeCSVFile_spec a w0 cols Hcols) as (l & lg & s' & E & Hl);
      rewrite E end.
    cbn [ext calls logs] in *. run.
    exists l. do 2 eexists. split; [rewrite <- app_assoc; reflexivity|].
    split; [|congruence].
    destruct (succeeded _).
    + destruct Hl as (ok1 & ok2 & ok3 & ->). repeat constructor.
    + subst l. repeat constructor.
  - exists [], [], (ext w). rewrite !app_nil_r. destruct w.
    split; [reflexivity|]. split; [constructor | reflexivity].
Qed.

Lemma runQueries_calls c (queries : list Query) :
  forall (times : list Z) w,
  exists l,
    calls (snd (runQueries rt c queries times w)) = calls w ++ l /\
    Forall (fun e => is_query_call e || is_file_call e = true) l /\
    (File (cmd_OutConfig c) = false -> Forall (fun e => is_query_call e = true) l).
Proof.
  induction queries as [|value rest IH]; intros times w; cbn [runQueries].
  - exists []. rewrite app_nil_r. repeat split; constructor.
  - unfold bind at 1. unfold Debugf at 1, logf at 1.
    unfold bind at 1. unfold observe at 1. cbn [ext calls logs].
    destruct (time_Now rt (ext w)) as [s_time s1].
    unfold bind at 1. unfold Infof at 1, logf at 1.
    unfold bind at 1. unfold invoke at 1. cbn [ext calls logs].
    destruct (db_Query rt (Sql value) s1) as [[msg|result] s2]; cbn [succeeded].
    + run. eexists. split; [reflexivity|]. split; repeat constructor.
    + unfold bind at 1. unfold observe at 1. cbn [ext calls logs].
      destruct (time_Now rt s2) as [e_time s3].
      unfold bind at 1. unfold Infof at 1, logf at 1.
      unfold bind at 1. cbn [ext calls logs].
      match goal with |- context [outputCSV rt c value result ?w0] =>
        destruct (outputCSV_files c value result w0) as (l1 & lg1 & s4 & E1 & Hf1 & Hn1);
        rewrite E1 end.
      cbn [ext calls logs].
      match goal with |- context [runQueries rt c rest ?t ?w0] =>
        destruct (IH t w0) as (l & E & Hl & Hq) end.
      rewrite E. cbn [calls].
      exists ([(CQuery (Sql value), true)] ++ l1 ++ l).
      split; [rewrite <- !app_assoc; reflexivity|]. split.
      * apply Forall_app. split; [repeat constructor|].
        apply Forall_app. split; [|exact Hl].
        eapply Forall_impl; [|exact Hf1]. intros e He. cbv beta in He.
        rewrite He. apply orb_true_r.
      * intros Hfile. rewrite (Hn1 Hfile). cbn [app].
        constructor; [reflexivity | exact (Hq Hfile)].
Qed.

(** Once the connection is open it is opened once and closed once: the
    open is the first call of the executor and the close its last,
    whether a query failed or not, with only queries and file calls in
    between. *)
Theorem ExecuteSQL_closes_the_connection c (args : ExecuteSQLArgs) w
  (driver dsn : string) :
  fst (getDbOpenValues c args w) = (driver, dsn) ->
  driver <> ""%string ->
  succeeded (fst (sql_Open rt driver dsn (ext w))) = true ->
  exists mid ok,
    issued w (snd (ExecuteSQL rt c args w)) =
      (CSqlOpen driver dsn, true) :: mid ++ [(CDbClose, ok)] /\
    Forall (fun e => is_query_call e || is_file_call e = true) mid.
Proof.
  intros Hdv Hdriver Hopen.
  destruct (getDbOpenValues_spec c args w) as [lg0 E0].
  rewrite E0 in Hdv. cbn [fst] in Hdv.
  unfold ExecuteSQL. unfold bind at 1. rewrite E0, Hdv.
  destruct (String.eqb_spec driver "") as [->|_]; [congruence|].
  unfold bind at 1. unfold invoke at 1. cbn [ext calls logs].
  destruct (sql_Open rt driver dsn (ext w)) as [[msg|[]] s1];
    cbn [fst succeeded] in Hopen; [discriminate|].
  unfold bind at 1. cbn [succeeded].
  match goal with |- context [runQueries rt c ?q ?t ?w0] =>
    destruct (@runQueries_calls c q t w0) as (l & E & Hl & _);
    destruct (runQueries rt c q t w0) as [res w1]
  end.
  cbn [snd calls] in E. run.
  destruct (db_Close rt (ext w1)) as [rc s2]. cbn [fst snd calls].
  exists l, (succeeded rc). split; [|exact Hl].
  apply issued_app. rewrite E, <- !app_assoc. reflexivity.
Qed.

(** With the export switched off the executor never touches the file
    system: between the open and the close there are queries only. *)
Theorem ExecuteSQL_without_export c (args : ExecuteSQLArgs) w (driver dsn : string) :
  File (cmd_OutConfig c) = false ->
  fst (getDbOpenValues c args w) = (driver, dsn) ->
  driver <> ""%string ->
  succeeded (fst (sql_Open rt driver dsn (ext w))) = true ->
  exists mid ok,
    issued w (snd (ExecuteSQL rt c args w)) =
      (CSqlOpen driver dsn, true) :: mid ++ [(CDbClose, ok)] /\
    Forall (fun e => is_query_call e = true) mid.
Proof.
  intros Hfile Hdv Hdriver Hopen.
  destruct (getDbOpenValues_spec c args w) as [lg0 E0].
  rewrite E0 in Hdv. cbn [fst] in Hdv.
  unfold ExecuteSQL. unfold bind at 1. rewrite E0, Hdv.
  destruct (String.eqb_spec driver "") as [->|_]; [congruence|].
  unfold bind at 1. unfold invoke at 1. cbn [ext calls logs].
  destruct (sql_Open rt driver dsn (ext w)) as [[msg|[]] s1];
    cbn [fst succeeded] in Hopen; [discriminate|].
  unfold bind at 1. cbn [succeeded].
  match goal with |- context [runQueries rt c ?q ?t ?w0] =>
    destruct (@runQueries_calls c q t w0) as (l & E & _ & Hl);
    destruct (runQueries rt c q t w0) as [res w1]
  end.
  cbn [snd calls] in E. run.
  destruct (db_Close rt (ext w1)) as [rc s2]. cbn [fst snd calls].
  exists l, (succeeded rc). split; [|exact (Hl Hfile)].
  apply issued_app. rewrite E, <- !app_assoc. reflexivity.
Qed.

(** When the connection cannot be opened the executor returns the error
    of the open with no timings; it runs no query and closes nothing. *)
Theorem ExecuteSQL_open_failure c (args : ExecuteSQLArgs) w
  (driver dsn msg : string) :
  fst (getDbOpenValues c args w) = (driver, dsn) ->
  driver <> ""%string ->
  fst (sql_Open rt driver dsn (ext w)) = inl msg ->
  fst (ExecuteSQL rt c args w) = ([], Some (ExternalError msg)) /\
  issued w (snd (ExecuteSQL rt c args w)) = [(CSqlOpen driver dsn, false)].
Proof.
  intros Hdv Hdriver Hopen.
  destruct (getDbOpenValues_spec c args w) as [lg0 E0].
  rewrite E0 in Hdv. cbn [fst] in Hdv.
  assert (exists s' lg,
            ExecuteSQL rt c args w =
            (([], Some (ExternalError msg)),
             {| ext := s'; calls := calls w ++ [(CSqlOpen driver dsn, false)];
                logs := logs w ++ lg |})) as (s' & lg & E).
  { unfold ExecuteSQL. unfold bind at 1. rewrite E0, Hdv.
    destruct (String.eqb_spec driver "") as [->|_]; [congruence|].
    run. destruct (sql_Open rt driver dsn (ext w)) as [r s1].
    cbn [fst] in Hopen. subst r. cbn [succeeded ext calls logs].
    do 2 eexists. rewrite <- app_assoc. reflexivity. }
  rewrite E. split; [reflexivity | apply issued_app; reflexivity].
Qed.

(** ** What a substring match means *)

Lemma Contains_iff (s substr : string) :
  Contains s substr = true <->
  exists pre post, s = (pre ++ substr ++ post)%string.
Proof.
  induction s as [|a s IH]; cbn [Contains].
  - rewrite prefix_iff. split.
    + intros [suffix H]. exists ""%string, suffix. exact H.
    + intros (pre & post & H). destruct pre; [|discriminate].
      exists post. exact H.
  - rewrite orb_true_iff, prefix_iff, IH. split.
    + intros [[suffix H]|(pre & post & H)].
      * exists ""%string, suffix. exact H.
      * exists (String a pre), post. cbn [String.append]. congruence.
    + intros (pre & post & H). destruct pre as [|b pre].
      * left. exists post. exact H.
      * right. cbn [String.append] in H. injection H as _ H.
        exists pre, post. exact H.
Qed.

(** The mysql driver is chosen exactly when the lower-cased engine name
    has the text mysql somewhere in it, and no driver is found exactly
    when it has none of the four keywords in it. *)
Theorem driver_by_occurrence c (args : ExecuteSQLArgs) w :
  let occurs kw := exists pre post, ToLower (Engine args) = (pre ++ kw ++ post)%string in
  let driver := fst (fst (getDbOpenValues c args w)) in
  (driver = "mysql"%string <-> occurs "mysql"%string) /\
  (driver = ""%string <-> forall kw, In kw drivers -> ~ occurs kw).
Proof.
  intros occurs driver.
  assert (forall kw, Contains (ToLower (Engine args)) kw = true <-> occurs kw) as Hc
    by (intros kw; apply Contains_iff).
  destruct (getDbOpenValues_spec c args w) as [lg E].
  unfold driver. rewrite E. cbn [fst]. unfold first_match, drivers. cbn [find].
  destruct (Contains (ToLower (Engine args)) "mysql") eqn:H1.
  { cbn [fst]. split.
    - split; [intros _; apply Hc; exact H1 | reflexivity].
    - split; [discriminate|]. intros H. exfalso.
      apply (H "mysql"%string); [left; reflexivity | apply Hc; exact H1]. }
  assert (~ occurs "mysql"%string) as N1 by (rewrite <- Hc; congruence).
  destruct (Contains (ToLower (Engine args)) "oracle") eqn:H2.
  { cbn [fst]. split.
    - split; [discriminate | intros H; contradiction].
    - split; [discriminate|]. intros H. exfalso.
      apply (H "oracle"%string); [right; left; reflexivity | apply Hc; exact H2]. }
  assert (~ occurs "oracle"%string) as N2 by (rewrite <- Hc; congruence).
  destruct (Contains (ToLower (Engine args)) "sqlserver") eqn:H3.
  { cbn [fst]. split.
    - split; [discriminate | intros H; contradiction].
    - split; [discriminate|]. intros H. exfalso.
      apply (H "sqlserver"%string);
        [right; right; left; reflexivity | apply Hc; exact H3]. }
  assert (~ occurs "sqlserver"%string) as N3 by (rewrite <- Hc; congruence).
  destruct (Contains (ToLower (Engine args)) "postgres") eqn:H4.
  { cbn [fst]. split.
    - split; [discriminate | intros H; contradiction].
    - split; [discriminate|]. intros H. exfalso.
      apply (H "postgres"%string);
        [right; right; right; left; reflexivity | apply Hc; exact H4]. }
  assert (~ occurs "postgres"%string) as N4 by (rewrite <- Hc; congruence).
  cbn [fst]. split.
  - split; [discriminate | intros H; contradiction].
  - split; [|reflexivity]. intros _ kw Hin. cbn [In] in Hin.
    destruct Hin as [<-|[<-|[<-|[<-|[]]]]]; assumption.
Qed.

(** ** More on the status waiter *)





Lemma wait_step_unknown_type c (x : any) (wt : waiter) (ev : select_case) w :
  is_waitable x = false ->
  received wt = [] \/ (received wt = [false] /\ timeout_pending wt = false) ->
  calls (snd (wait_step c x wt ev w)) = calls w /\
  (received (fst (wait_step c x wt ev w)) = [] \/
   (received (fst (wait_step c x wt ev w)) = [false] /\
    timeout_pending (fst (wait_step c x wt ev w)) = false)).
Proof.
  intros Hx Hinv. unfold wait_step.
  destruct (running wt) eqn:Hr; [|split; [reflexivity|exact Hinv]].
  destruct ev as [tick|out].
  - destruct (ticker_running wt); [|split; [reflexivity|exact Hinv]].
    unfold on_tick, check_status.
    destruct x; try discriminate; run; (split; [reflexivity|exact Hinv]).
  - remember (timeout_pending wt) as pending eqn:Hp. destruct pending.
    + destruct Hinv as [He|[_ Hf]]; [|congruence].
      unfold on_timeout, send, timeout_read. cbn [receives].
      destruct (receives wt); cbn [running g].
      * split; [reflexivity|]. left. exact He.
      * unfold running in Hr. destruct (g wt); try discriminate. run.
        cbn [ticker_Stop received timeout_pending]. rewrite He.
        split; [reflexivity|]. right. split; reflexivity.
    + split; [reflexivity|]. cbn [ret fst].
      destruct Hinv as [He|[He _]]; [left; exact He|].
      right. split; [exact He | congruence].
Qed.

Lemma range_wait_step_unknown_type c (x : any) (ready : list select_case) :
  is_waitable x = false ->
  forall (wt : waiter) w,
  received wt = [] \/ (received wt = [false] /\ timeout_pending wt = false) ->
  calls (snd (range (wait_step c x) ready wt w)) = calls w /\
  (received (fst (range (wait_step c x) ready wt w)) = [] \/
   received (fst (range (wait_step c x) ready wt w)) = [false]).
Proof.
  intros Hx. induction ready as [|ev ready IH]; intros wt w Hinv; cbn [range].
  - split; [reflexivity|]. cbn [ret fst]. tauto.
  - unfold bind.
    destruct (@wait_step_unknown_type c x wt ev w Hx Hinv) as [Hc Hi].
    destruct (wait_step c x wt ev w) as [wt1 w1]. cbn [fst snd] in Hc, Hi.
    destruct (IH wt1 w1 Hi) as [Hc' Hr']. split; [congruence | exact Hr'].
Qed.

(** A value that the waiter does not know how to describe: no gateway
    call is ever issued for it and [true] is never sent; all the caller
    can receive is the [false] of the timeout. *)
Theorem waiter_of_unknown_type c (x : any) (n : nat) (ready : list select_case) w :
  is_waitable x = false ->
  let r := WaitForStatusAvailable c x n ready w in
  calls (snd r) = calls w /\
  (received (fst r) = [] \/ received (fst r) = [false]).
Proof.
  intros Hx r. unfold r, WaitForStatusAvailable.
  apply range_wait_step_unknown_type; [exact Hx|]. left. reflexivity.
Qed.



(** ** Pending status and modify *)

(** [CheckPendingStatus] answers false exactly when every parameter group
    is in-sync and every security group is active; in particular for an
    instance without any group. *)
Theorem CheckPendingStatus_false_iff (dbInstance : DBInstanceGroups) :
  CheckPendingStatus dbInstance = false <->
  Forall (fun item => ParameterApplyStatus item = "in-sync"%string)
    (DBParameterGroups dbInstance) /\
  Forall (fun item => vsg_Status item = "active"%string)
    (VPCSecurityGroups dbInstance).
Proof.
  assert (forall l, pendingParameterGroups l = false <->
                    Forall (fun item => ParameterApplyStatus item = "in-sync"%string) l)
    as Hp.
  { induction l as [|item l IH]; cbn [pendingParameterGroups].
    - split; [constructor | reflexivity].
    - destruct (String.eqb_spec (ParameterApplyStatus item) "in-sync") as [E|E];
        cbn [negb].
      + rewrite IH. split; [intros H; constructor; assumption|].
        intros H. inversion H. assumption.
      + split; [discriminate|]. intros H. inversion H. contradiction. }
  assert (forall l, pendingSecurityGroups l = false <->
                    Forall (fun item => vsg_Status item = "active"%string) l) as Hs.
  { induction l as [|item l IH]; cbn [pendingSecurityGroups].
    - split; [constructor | reflexivity].
    - destruct (String.eqb_spec (vsg_Status item) "active") as [E|E]; cbn [negb].
      + rewrite IH. split; [intros H; constructor; assumption|].
        intros H. inversion H. assumption.
      + split; [discriminate|]. intros H. inversion H. contradiction. }
  unfold CheckPendingStatus. rewrite <- Hp, <- Hs.
  destruct (pendingParameterGroups _), (pendingSecurityGroups _);
    intuition congruence.
Qed.

Lemma fold_left_snoc_map {A B : Type} (f : A -> B) (l : list A) (acc : list B) :
  fold_left (fun acc x => acc ++ [f x]) l acc = acc ++ map f l.
Proof.
  revert acc. induction l as [|x l IH]; intros acc; cbn [fold_left map].
  - rewrite app_nil_r. reflexivity.
  - rewrite IH, <- app_assoc. reflexivity.
Qed.

(** ** The export step of the executor *)

Lemma writeRow_logs (rawResult : list (option string)) (writer : list (list string))
  (lastcols : list driver_value) w :
  exists lg,
    logs (snd (writeRow (rawResult, writer) lastcols w)) = logs w ++ lg /\
    Forall (fun e => fmt e = "%s"%string) lg.
Proof.
  unfold writeRow. destruct (Scan lastcols rawResult) as [raw' [msg|]]; run.
  - eexists. split; [reflexivity|]. repeat constructor.
  - exists []. rewrite app_nil_r. split; [reflexivity | constructor].
Qed.

Lemma range_writeRow_logs (rows : list (list driver_value)) :
  forall (st : list (option string) * list (list string)) w,
  exists lg,
    logs (snd (range (@writeRow St) rows st w)) = logs w ++ lg /\
    Forall (fun e => fmt e = "%s"%string) lg.
Proof.
  induction rows as [|row rows IH]; intros [rawResult writer] w; cbn [range].
  - exists []. rewrite app_nil_r. split; [reflexivity | constructor].
  - unfold bind.
    destruct (writeRow_logs rawResult writer row w) as (lg1 & E1 & H1).
    destruct (writeRow (rawResult, writer) row w) as [st1 w1]. cbn [snd] in E1.
    destruct (IH st1 w1) as (lg & E & H).
    exists (lg1 ++ lg). rewrite E, E1, <- app_assoc.
    split; [reflexivity | apply Forall_app; split; assumption].
Qed.

Lemma writeCSVFile_logs (args : writeCSVFileArgs) w :
  exists lg,
    logs (snd (writeCSVFile rt args w)) = logs w ++ lg /\
    Forall (fun e => fmt e = "%s"%string) lg.
Proof.
  unfold writeCSVFile. destruct (Columns (wa_Rows args)) as [msg|cols].
  - run. eexists. split; [reflexivity|]. repeat constructor.
  - unfold bind at 1. unfold invoke at 1.
    destruct (os_OpenFile rt _ (ext w)) as [[msg|[]] s1].
    + unfold bind at 1. unfold ret at 1. unfold bind at 1.
      match goal with |- context [range _ ?rows ?st ?w0] =>
        destruct (range_writeRow_logs rows st w0) as (lg & E & H);
        destruct (range _ rows st w0) as [st1 w1] end.
      cbn [snd logs] in E. run. exists lg. split; assumption.
    + unfold bind at 1. unfold invoke at 1. cbn [ext calls logs].
      destruct (file_Truncate rt s1) as [r1 s2]. unfold bind at 1.
      match goal with |- context [range _ ?rows ?st ?w0] =>
        destruct (range_writeRow_logs rows st w0) as (lg & E & H);
        destruct (range _ rows st w0) as [st1 w1] end.
      cbn [snd logs] in E. run.
      destruct (file_Write rt _ (ext w1)) as [r2 s3]. cbn [ext calls logs fst snd].
      destruct (file_Close rt s3) as [r3 s4]. cbn [ext calls logs fst snd].
      exists lg. split; assumption.
Qed.

(** The executor exports only results whose column names it could read,
    so the only failure [writeCSVFile] reports cannot occur there: every
    [out_state] line the export step logs says true. *)
Theorem outputCSV_out_state_is_true c (value : Query) (result : Rows) w (b : bool) :
  In {| lvl := LDebug; fmt := "out_state:%+v"; args := [ABool b] |}
     (skipn (length (logs w)) (logs (snd (outputCSV rt c value result w)))) ->
  b = true.
Proof.
  unfold outputCSV.
  destruct (File (cmd_OutConfig c) && _)%bool eqn:Hcond.
  - destruct (Columns result) as [msg|cols] eqn:Hcols.
    { simpl in Hcond. rewrite andb_false_r in Hcond. discriminate. }
    unfold bind at 1. unfold observe at 1.
    destruct (GetFormatedTime rt (ext w)) as [now s1].
    unfold bind at 1. unfold observe at 1. cbn [ext calls logs].
    destruct (GetHomeDir rt s1) as [home s2].
    unfold bind at 1.
    match goal with |- context [writeCSVFile rt ?a ?w0] =>
      pose proof (@writeCSVFile_reports_success a w0 cols Hcols) as Hok;
      destruct (writeCSVFile_logs a w0) as (lg & E & Hlg);
      destruct (writeCSVFile rt a w0) as [out_state w1] end.
    cbn [fst] in Hok. cbn [snd logs] in E. subst out_state. run.
    rewrite E, <- app_assoc, skipn_length_app.
    intros Hin. apply in_app_or in Hin. destruct Hin as [Hin|[Hin|[]]].
    + rewrite Forall_forall in Hlg. apply Hlg in Hin. discriminate.
    + congruence.
  - cbn [ret snd]. rewrite <- (app_nil_r (logs w)) at 2.
    rewrite skipn_length_app. intros [].
Qed.

(** When the export is on and the result has columns, the file is opened
    under the configured root, or under the home directory when no root
    is configured; its name is the name of the query, a dash, the
    formatted time and [.csv], with [utf8-bom_] in front in marker mode. *)
Theorem outputCSV_destination c (value : Query) (result : Rows) w
  (cols : list string) :
  File (cmd_OutConfig c) = true ->
  Columns result = inr cols ->
  cols <> [] ->
  let now := GetFormatedTime rt (ext w) in
  let home := GetHomeDir rt (snd now) in
  let dir := if Root (cmd_OutConfig c) =? "" then fst home else Root (cmd_OutConfig c) in
  let name := (Name value ++ "-" ++ fst now ++ ".csv")%string in
  let path := path_Join rt dir
                (if Bom (cmd_OutConfig c) then ("utf8-bom_" ++ name)%string else name) in
  exists rest,
    issued w (snd (outputCSV rt c value result w))
    = (COpenFile path, succeeded (fst (os_OpenFile rt path (snd home)))) :: rest.
Proof.
  intros Hfile Hcols Hne now home dir name path.
  assert (exists l lg s',
            outputCSV rt c value result w =
            (tt, {| ext := s';
                    calls := calls w ++
                             (COpenFile path, succeeded (fst (os_OpenFile rt path (snd home))))
                             :: l;
                    logs := logs w ++ lg |})) as (l & lg & s' & E).
  { unfold outputCSV. rewrite Hfile, Hcols.
    destruct cols as [|col cols]; [congruence|]. cbn [andb length Nat.ltb Nat.leb].
    unfold bind at 1. unfold observe at 1. fold now.
    destruct now as [now_s s1] eqn:Hnow.
    unfold bind at 1. unfold observe at 1. cbn [ext calls logs].
    cbn [snd] in home. fold home. destruct home as [home_s s2] eqn:Hhome.
    unfold bind at 1.
    match goal with |- context [writeCSVFile rt ?a ?w0] =>
      destruct (@writeCSVFile_spec a w0 (col :: cols) Hcols) as (l & lg & s' & E & Hl);
      rewrite E end.
    cbn [ext calls logs wa_Bom Path FileName fst snd] in *. run.
    assert (path = path_Join rt
                     (if negb (Root (cmd_OutConfig c) =? "")
                      then Root (cmd_OutConfig c) else home_s)
                     (if Bom (cmd_OutConfig c)
                      then ("utf8-bom_" ++ Name value ++ "-" ++ now_s ++ ".csv")%string
                      else (Name value ++ "-" ++ now_s ++ ".csv")%string)) as Hpath.
    { unfold path, dir, name. cbn [fst].
      destruct (Root (cmd_OutConfig c) =? ""); reflexivity. }
    rewrite <- Hpath in Hl.
    destruct (succeeded (fst (os_OpenFile rt path s2))).
    - destruct Hl as (ok1 & ok2 & ok3 & ->). do 3 eexists.
      rewrite <- app_assoc. reflexivity.
    - subst l. do 3 eexists. rewrite <- app_assoc. reflexivity. }
  rewrite E. eexists. apply issued_app. reflexivity.
Qed.

End Properties.

(** [ModifyDBInstance] panics on an instance without parameter group,
    before anything is sent or logged; otherwise it sends exactly one
    request, with the name of the first parameter group, the identifiers
    of all the security groups in their order and immediate application,
    and returns the answer of the gateway. *)
Theorem ModifyDBInstance_request {St : Type} (ops : RDSInstanceOps St)
  (dbIdentifier : string) (dbInstance : DBInstanceGroups) (w : World (Traced St)) :
  let r := ModifyDBInstance ops dbIdentifier dbInstance w in
  match DBParameterGroups dbInstance with
  | [] => r = (None, w)
  | group :: _ =>
      let message := {|
        mm_DBInstanceIdentifier := dbIdentifier;
        mm_DBParameterGroupName := DBParameterGroupName group;
        mm_VPCSecurityGroupIDs := map VPCSecurityGroupID (VPCSecurityGroups dbInstance);
        mm_ApplyImmediately := true |} in
      let answer := fst (rds_ModifyDBInstance ops message (fst (ext w))) in
      snd (ext (snd r)) = snd (ext w) ++ [(CModifyDBInstance message, succeeded answer)] /\
      fst r = Some match answer with
                   | inl msg => inl (ExternalError msg)
                   | inr resp => inr resp
                   end
  end.
Proof.
  intros r. unfold r, ModifyDBInstance.
  destruct (DBParameterGroups dbInstance) as [|group groups]; cbn [nth_error].
  - reflexivity.
  - rewrite fold_left_snoc_map. cbn [app].
    unfold bind, invoke_instance.
    destruct (rds_ModifyDBInstance ops _ (fst (ext w))) as [[msg|resp] s'];
      cbn [fst snd succeeded ext]; split; reflexivity.
Qed.

(** ** Runs in the scripted worlds *)


(** A name tag of another application next to a time tag: not owned. *)
Example ownership_check_foreign_name :
  fst (checkListTagsForResourceMessage quiet_runtime tagged_command
         (DBInstanceVal (instance "c" "available")) world0) = (false, None).
Proof. reflexivity. Qed.

(** A time tag alone: not owned. *)
Example ownership_check_time_only :
  fst (checkListTagsForResourceMessage quiet_runtime tagged_command
         (DBSnapshotVal (snapshot "s2" "creating")) world0) = (false, None).
Proof. reflexivity. Qed.


Lemma discovery_returns_owned_in_order_witness :
  fst (DescribeDBInstancesByTags quiet_runtime tagged_command world0)
    = inr [instance "a" "available"] /\
  fst (DescribeDBSnapshotsByTags quiet_runtime tagged_command world0)
    = inr [snapshot "s1" "available"].
Proof.
  exact (@discovery_returns_owned_in_order nat quiet_runtime tagged_command world0
           tags_table
           [instance "c" "available"; instance "a" "available"]
           [snapshot "s1" "available"; snapshot "s2" "creating"]
           (fun _ _ => eq_refl) eq_refl eq_refl).
Defined.

(** The tag listing of [d] fails: the error comes back, without [a]. *)
Example discovery_aborts_on_first_error :
  fst (DescribeDBInstancesByTags quiet_runtime
         (scripted_command
            (scripted_rds
               (inr [instance "a" "available"; instance "d" "available";
                     instance "a" "available"])
               (inr []) tags_table) no_output) world0)
  = inl (ExternalError "AccessDenied").
Proof. reflexivity. Qed.

Lemma latest_snapshot_is_last_available_witness :
  fst (DescribeLatestDBSnapshot
         (scripted_command
            (scripted_rds (inr [])
               (inr [snapshot "s0" "available"; snapshot "s1" "available";
                     snapshot "s2" "creating"]) tags_table) no_output)
         "a" world0)
  = inr (snapshot "s1" "available").
Proof.
  apply (proj2 (@latest_snapshot_is_last_available nat
                  (scripted_command
                     (scripted_rds (inr [])
                        (inr [snapshot "s0" "available"; snapshot "s1" "available";
                              snapshot "s2" "creating"]) tags_table) no_output)
                  "a" world0
                  [snapshot "s0" "available"; snapshot "s1" "available";
                   snapshot "s2" "creating"] eq_refl))
    with (l := [snapshot "s0" "available"]).
  reflexivity.
Defined.

Example latest_snapshot_none_available :
  fst (DescribeLatestDBSnapshot
         (scripted_command
            (scripted_rds (inr []) (inr [snapshot "s2" "creating"]) tags_table)
            no_output) "a" world0)
  = inl ErrSnapshotNotFound.
Proof. reflexivity. Qed.


(** Three queries of which the second fails: one timing, a non-nil
    error, and the third query is never issued. *)
Example ExecuteSQL_second_of_three_fails :
  let r := ExecuteSQL sql_runtime csv_command (mysql_args "MySQL" three_queries) world0 in
  length (fst (fst r)) = 1 /\
  snd (fst r) =
    Some (ExternalError "Error 1064: You have an error in your SQL syntax") /\
  queries_of (calls (snd r)) = [("select 1"%string, true); ("bad"%string, false)] /\
  filter (fun e => match fst e with CDbClose => true | _ => false end) (calls (snd r))
    = [(CDbClose, true)].
Proof. vm_compute. repeat split. Qed.


Example driver_mysql_57 :
  fst (getDbOpenValues csv_command (mysql_args "mysql-5.7" []) world0)
  = ("mysql"%string, "user:pass@tcp(clone.example.com:3306)/"%string).
Proof. vm_compute. reflexivity. Qed.

Example driver_oracle_se :
  fst (getDbOpenValues csv_command (mysql_args "oracle-se" []) world0)
  = ("oracle"%string, ""%string).
Proof. vm_compute. reflexivity. Qed.

Example driver_upper_case :
  fst (getDbOpenValues csv_command (mysql_args "PostgreSQL" []) world0)
  = ("postgres"%string, ""%string).
Proof. vm_compute. reflexivity. Qed.

Example driver_unknown :
  ExecuteSQL sql_runtime csv_command (mysql_args "aurora" three_queries) world0
  = (([], Some ErrDriverNotFound),
     {| ext := 0; calls := [];
        logs := [ {| lvl := LDebug; fmt := "aws engine name: %s";
                     args := [AStr "aurora"] |};
                  {| lvl := LError;
                     fmt := "failed to convert. no matching SQL driver: %s";
                     args := [AStr "aurora"] |};
                  {| lvl := LDebug; fmt := "golang db driver name: %s";
                     args := [AStr ""] |};
                  {| lvl := LDebug; fmt := "golang db data source name: %s";
                     args := [AStr ""] |};
                  {| lvl := LError; fmt := "%s";
                     args := [AStr (Error ErrDriverNotFound)] |} ] |}).
Proof. vm_compute. reflexivity. Qed.

Lemma csv_rows_render_null_witness :
  exists path ok1 ok2 ok3,
    issued world0 (snd (writeCSVFile sql_runtime two_rows_args world0)) =
      [(COpenFile path, true); (CTruncate, ok1);
       (CWriteFile
          ([] ++ [["id"; "name"]] ++
           map (map text_of) [[DBytes "1"; DBytes "a"]; [DBytes "2"; DNull]]), ok2);
       (CFileClose, ok3)]
    /\ text_of DNull = "null"%string /\ text_of DNull <> ""%string
    /\ (forall b, text_of (DBytes b) = b).
Proof.
  apply (@csv_rows_render_null nat sql_runtime two_rows_args world0 ["id"; "name"]).
  - reflexivity.
  - repeat constructor.
  - intros path. reflexivity.
Defined.

(** The result set [(1, "a"), (2, NULL)] without marker: the second data
    row is [2,null]. *)
Example csv_second_row :
  calls (snd (writeCSVFile sql_runtime two_rows_args world0)) =
  [(COpenFile "/tmp/out/q1-20150101-000000.csv", true); (CTruncate, true);
   (CWriteFile [["id"; "name"]; ["1"; "a"]; ["2"; "null"]], true);
   (CFileClose, true)].
Proof. vm_compute. reflexivity. Qed.

(** C8: in a world where the file cannot be opened nothing is truncated
    or written, and the writer still returns true. *)
Theorem writeCSVFile_open_failure_reported_as_success :
  succeeded (fst (os_OpenFile readonly_runtime "/tmp/out/q1-20150101-000000.csv" 0))
    = false /\
  fst (writeCSVFile readonly_runtime two_rows_args world0) = true /\
  calls (snd (writeCSVFile readonly_runtime two_rows_args world0))
    = [(COpenFile "/tmp/out/q1-20150101-000000.csv", false)].
Proof. vm_compute. repeat split. Qed.

Lemma DeleteDBResources_unknown_type_returns_nil_witness :
  DeleteDBResources tagged_command OtherVal world0 =
    (None,
     {| ext := 0; calls := [];
        logs := [{| lvl := LError; fmt := "%s";
                    args := [AStr (Error ErrRdsTypesNotFound)] |}] |})
  /\ fst (DeleteDBResources tagged_command
            (DBSnapshotSlice [snapshot "s1" "available"]) world0)
     <> Some ErrRdsTypesNotFound.
Proof.
  apply (@DeleteDBResources_unknown_type_returns_nil nat tagged_command OtherVal
           (DBSnapshotSlice [snapshot "s1" "available"]) world0 world0).
  reflexivity.
Defined.

(** C1: three runs of the waiter.  The clone is available at the first
    tick and the timeout fires later: a caller that receives twice gets
    [true] and then [false], and with a caller that receives once the
    goroutine ends blocked in the second send.  The describe call fails
    at the first tick: the caller receives [false] and the goroutine
    panics on the nil result. *)
Theorem WaitForStatusAvailable_after_the_first_result :
  received (fst (WaitForStatusAvailable ready_command (DBInstancePtr clone) 2
                   [TickerC 30; TimeoutC 1800] world0)) = [true; false] /\
  (let wt := fst (WaitForStatusAvailable ready_command (DBInstancePtr clone) 1
                    [TickerC 30; TimeoutC 1800] world0) in
   received wt = [true] /\ g wt = SendBlocked false) /\
  (let wt := fst (WaitForStatusAvailable failing_command (DBInstancePtr clone) 1
                    [TickerC 30] world0) in
   received wt = [false] /\ g wt = Panicked).
Proof. vm_compute. repeat split. Qed.

(** A clone that becomes available at the third tick: three describe
    calls, [true], and no describe call for the ticks that follow. *)
Example waiter_no_describe_after_success :
  let r := WaitForStatusAvailable warming_command (DBInstancePtr clone) 1
             [TickerC 30; TickerC 60; TickerC 90; TickerC 120; TickerC 150] world0 in
  received (fst r) = [true] /\ ticker_running (fst r) = false /\
  length (filter is_describe (calls (snd r))) = 3.
Proof. vm_compute. repeat split. Qed.

(** The timeout fires first: [false], once. *)
Example waiter_timeout :
  let r := WaitForStatusAvailable
             (scripted_command
                (scripted_rds (inr [instance "clone" "creating"]) (inr []) tags_table)
                no_output)
             (DBInstancePtr clone) 1
             [TickerC 30; TickerC 60; TimeoutC 1800; TickerC 1830] world0 in
  received (fst r) = [false] /\ g (fst r) = Selecting /\
  length (filter is_describe (calls (snd r))) = 2.
Proof. vm_compute. repeat split. Qed.

(** All the queries succeed: one timing per query, nil, and the
    connection closed once. *)
Example ExecuteSQL_all_succeed :
  let batch := [{| Name := "q1"; Sql := "select 1" |}; {| Name := "q3"; Sql := "select 3" |}] in
  let r := ExecuteSQL sql_runtime csv_command (mysql_args "mysql" batch) world0 in
  length (fst (fst r)) = 2 /\ snd (fst r) = None /\
  queries_of (calls (snd r)) = [("select 1"%string, true); ("select 3"%string, true)] /\
  filter (fun e => match fst e with CDbClose => true | _ => false end) (calls (snd r))
    = [(CDbClose, true)].
Proof. vm_compute. repeat split. Qed.

(** The restore request of the clone in the scripted world. *)
Example restore_request_tags :
  calls (snd (RestoreDBInstanceFromDBSnapshot quiet_runtime tagged_command
                {| ra_DBInstanceClass := "db.t2.micro"; ra_DBIdentifier := "clone";
                   ra_MultiAZ := false; ra_Snapshot := snapshot "s1" "available";
                   ra_Instance := instance "a" "available" |} world0))
  = [(CRestoreDBInstanceFromDBSnapshot
        {| rm_DBInstanceClass := "db.t2.micro"; rm_DBInstanceIdentifier := "clone";
           rm_MultiAZ := false; rm_DBSnapshotIdentifier := "s1";
           rm_DBSubnetGroupName := "default"; rm_StorageType := "gp2";
           rm_Tags := [tag "rt_name" "rds-try"; tag "rt_time" "20150101-000000"] |},
      true)].
Proof. reflexivity. Qed.

(** ** More runs in the scripted worlds *)

Lemma checkListTags_of_unknown_type_witness :
  (exists s' lg,
     getARNString tagged_command OtherVal world0
       = (""%string, {| ext := s'; calls := []; logs := lg |}) /\
     In {| lvl := LError; fmt := "%s"; args := [AStr (Error ErrRdsARNsNotFound)] |} lg) /\
  issued world0 (snd (checkListTagsForResourceMessage quiet_runtime tagged_command
                        OtherVal world0))
    = [(CListTagsForResource "", false)].
Proof.
  exact (@checkListTags_of_unknown_type nat quiet_runtime tagged_command OtherVal world0
           eq_refl).
Defined.

Lemma specify_tags_are_owned_witness :
  fst (checkListTagsForResourceMessage quiet_runtime tagged_command
         (DBSnapshotVal (snapshot "s1" "available")) world0) = (true, None).
Proof.
  exact (@specify_tags_are_owned nat quiet_runtime tagged_command
           (DBSnapshotVal (snapshot "s1" "available")) world0 world0 eq_refl).
Defined.

Lemma discovery_calls_witness :
  issued world0 (snd (DescribeDBInstancesByTags quiet_runtime tagged_command world0))
    = [(CDescribeDBInstances {| dim_DBInstanceIdentifier := None |}, true);
       (CListTagsForResource "arn:aws:rds:us-east-1:123456789012:db:c", true);
       (CListTagsForResource "arn:aws:rds:us-east-1:123456789012:db:a", true)] /\
  issued world0 (snd (DescribeDBSnapshotsByTags quiet_runtime tagged_command world0))
    = [(CDescribeDBSnapshots {| dsm_DBInstanceIdentifier := None;
                                dsm_DBSnapshotIdentifier := None |}, true);
       (CListTagsForResource "arn:aws:rds:us-east-1:123456789012:snapshot:s1", true);
       (CListTagsForResource "arn:aws:rds:us-east-1:123456789012:snapshot:s2", true)].
Proof.
  exact (@discovery_calls nat quiet_runtime tagged_command world0 tags_table
           (fun _ _ => eq_refl)).
Defined.

(** The tag listing of [d] fails: [a] after it is never looked at. *)
Example discovery_stops_listing :
  issued world0
    (snd (DescribeDBInstancesByTags quiet_runtime
            (scripted_command
               (scripted_rds
                  (inr [instance "a" "available"; instance "d" "available";
                        instance "a" "available"])
                  (inr []) tags_table) no_output) world0))
  = [(CDescribeDBInstances {| dim_DBInstanceIdentifier := None |}, true);
     (CListTagsForResource "arn:aws:rds:us-east-1:123456789012:db:a", true);
     (CListTagsForResource "arn:aws:rds:us-east-1:123456789012:db:d", false)].
Proof. reflexivity. Qed.

(** Three snapshots of which the second cannot be deleted: the first is
    deleted, the error of the second comes back, the third is left. *)
Example bulk_delete_second_fails :
  let r := DeleteDBResources second_delete_fails
             (DBSnapshotSlice [snapshot "s1" "available"; snapshot "s2" "available";
                               snapshot "s3" "available"]) world0 in
  fst r = Some (ExternalError "InvalidDBSnapshotState") /\
  calls (snd r) = [(CDeleteDBSnapshot "s1", true); (CDeleteDBSnapshot "s2", false)].
Proof. vm_compute. split; reflexivity. Qed.

Example bulk_delete_nothing :
  DeleteDBResources second_delete_fails (DBInstanceSlice []) world0 = (None, world0).
Proof. reflexivity. Qed.

Lemma writeCSVFile_shape_witness :
  exists ok1 ok2 ok3 data,
    issued world0 (snd (writeCSVFile sql_runtime bad_rows_args world0)) =
      [(COpenFile "/tmp/out/utf8-bom_q1-20150101-000000.csv", true);
       (CTruncate, ok1);
       (CWriteFile
          ([[(BOM ++ "# character encoding : utf-8 with BOM")%string]]
           ++ [["id"; "name"; "note"]] ++ data), ok2);
       (CFileClose, ok3)]
    /\ length data = 2
    /\ Forall (fun record => length record = 3) data.
Proof.
  apply (@writeCSVFile_shape nat sql_runtime bad_rows_args world0 ["id"; "name"; "note"]).
  - reflexivity.
  - intros path. reflexivity.
Defined.

Lemma writeRow_failed_scan_witness :
  exists msg,
    writeRow ([Some "1"; Some "a"; Some "x"]%string, [["id"; "name"; "note"]])
      ([DBytes "2"] ++ DUnsupported :: [DBytes "y"]) world0 =
    (([Some "2"; Some "a"; Some "x"]%string,
      [["id"; "name"; "note"]] ++ [["2"; "a"; "x"]]),
     {| ext := 0; calls := [];
        logs := [] ++ [{| lvl := LError; fmt := "%s"; args := [AStr msg] |}] |}).
Proof.
  apply (@writeRow_failed_scan nat [DBytes "2"] [DBytes "y"]
           [Some "1"; Some "a"; Some "x"]%string [["id"; "name"; "note"]] world0).
  - reflexivity.
  - reflexivity.
Defined.

Lemma ExecuteSQL_closes_the_connection_witness :
  exists mid ok,
    issued world0
      (snd (ExecuteSQL sql_runtime csv_command (mysql_args "MySQL" three_queries) world0))
    = (CSqlOpen "mysql" "user:pass@tcp(clone.example.com:3306)/", true)
      :: mid ++ [(CDbClose, ok)] /\
    Forall (fun e => is_query_call e || is_file_call e = true) mid.
Proof.
  apply (@ExecuteSQL_closes_the_connection nat sql_runtime csv_command
           (mysql_args "MySQL" three_queries) world0).
  - vm_compute. reflexivity.
  - discriminate.
  - reflexivity.
Defined.

Lemma ExecuteSQL_without_export_witness :
  exists mid ok,
    issued world0
      (snd (ExecuteSQL sql_runtime quiet_sql_command
              (mysql_args "MySQL" three_queries) world0))
    = (CSqlOpen "mysql" "user:pass@tcp(clone.example.com:3306)/", true)
      :: mid ++ [(CDbClose, ok)] /\
    Forall (fun e => is_query_call e = true) mid.
Proof.
  apply (@ExecuteSQL_without_export nat sql_runtime quiet_sql_command
           (mysql_args "MySQL" three_queries) world0).
  - reflexivity.
  - vm_compute. reflexivity.
  - discriminate.
  - reflexivity.
Defined.

Lemma ExecuteSQL_open_failure_witness :
  fst (ExecuteSQL sql_runtime csv_command (mysql_args "oracle-se" three_queries) world0)
    = ([], Some (ExternalError "sql: unknown driver")) /\
  issued world0
    (snd (ExecuteSQL sql_runtime csv_command (mysql_args "oracle-se" three_queries) world0))
    = [(CSqlOpen "oracle" "", false)].
Proof.
  apply (@ExecuteSQL_open_failure nat sql_runtime csv_command
           (mysql_args "oracle-se" three_queries) world0).
  - vm_compute. reflexivity.
  - discriminate.
  - reflexivity.
Defined.

Lemma outputCSV_out_state_is_true_witness :
  In {| lvl := LDebug; fmt := "out_state:%+v"; args := [ABool true] |}
     (skipn (length (logs world0))
        (logs (snd (outputCSV readonly_runtime csv_command
                      {| Name := "q1"; Sql := "select 1" |} two_rows world0)))) /\
  true = true.
Proof.
  assert (In {| lvl := LDebug; fmt := "out_state:%+v"; args := [ABool true] |}
            (skipn (length (logs world0))
               (logs (snd (outputCSV readonly_runtime csv_command
                             {| Name := "q1"; Sql := "select 1" |} two_rows world0)))))
    as Hin by (left; reflexivity).
  split; [exact Hin|].
  exact (@outputCSV_out_state_is_true nat readonly_runtime csv_command
           {| Name := "q1"; Sql := "select 1" |} two_rows world0 true Hin).
Defined.

Lemma outputCSV_destination_witness :
  exists rest,
    issued world0 (snd (outputCSV sql_runtime csv_command
                          {| Name := "q1"; Sql := "select 1" |} two_rows world0))
    = (COpenFile "/tmp/out/q1-20150101-000000.csv", true) :: rest.
Proof.
  apply (@outputCSV_destination nat sql_runtime csv_command
           {| Name := "q1"; Sql := "select 1" |} two_rows world0 ["id"; "name"]).
  - reflexivity.
  - reflexivity.
  - discriminate.
Defined.

(** A [DBInstance] handed over by value instead of by pointer is a value
    the waiter does not know. *)
Lemma waiter_of_unknown_type_witness :
  let r := WaitForStatusAvailable ready_command (DBInstanceVal clone) 1
             [TickerC 30; TickerC 60; TimeoutC 1800] world0 in
  calls (snd r) = calls world0 /\
  (received (fst r) = [] \/ received (fst r) = [false]).
Proof.
  apply (@waiter_of_unknown_type nat ready_command (DBInstanceVal clone) 1
           [TickerC 30; TickerC 60; TimeoutC 1800] world0).
  reflexivity.
Defined.


Example pending_status_of_applying_group :
  CheckPendingStatus pending_groups = true /\
  CheckPendingStatus {| DBParameterGroups := []; VPCSecurityGroups := [] |} = false.
Proof. split; reflexivity. Qed.

Example modify_request :
  ModifyDBInstance scripted_instance_ops "clone" pending_groups traced0 =
  (Some (inr (instance "clone" "modifying")),
   {| ext := (1, [(CModifyDBInstance
                     {| mm_DBInstanceIdentifier := "clone";
                        mm_DBParameterGroupName := "default.mysql5.6";
                        mm_VPCSecurityGroupIDs := ["sg-1"; "sg-2"];
                        mm_ApplyImmediately := true |}, true)]);
      calls := []; logs := [] |}).
Proof. reflexivity. Qed.
